(** * The historic CSV data handler of [backtester_py/data.py]

    A shallow embedding of [HistoricCSVDataHandler]: the construction
    ([__init__] and [_open_convert_csv_files]), the drip feed ([update_bars]
    over [_get_new_bar]) and the five accessors, followed by the properties
    of the feed that the specification states. What the handler prints to
    the console is left out. *)

From Stdlib Require Import ZArith Lia.
From stdpp Require Import gmap strings list fin_maps sorting.

(** ** Python outcomes *)

(** The exceptions the handler can raise. [NameError] stands for the
    [UnboundLocalError] of a loop variable read after a loop that never ran.
    [ReadCsvError] stands for whatever [read_csv] raises on a file it does
    not load ([FileNotFoundError], [EmptyDataError], [ParserError],
    [PermissionError] and others): the embedding does not tell these
    apart. The other names are the exceptions of the handler's own
    statements and of [reindex]. *)
Inductive exn :=
  | NameError
  | ReadCsvError
  | AttributeError
  | KeyError
  | IndexError
  | ValueError.

Inductive result (A : Type) :=
  | Ok (a : A)
  | Raise (e : exn).
Arguments Ok {A} a.
Arguments Raise {A} e.

(** Sequencing: an exception ends the computation. *)
#[global] Instance result_bind : MBind result := λ A B k c,
  match c with
  | Ok a => k a
  | Raise e => Raise e
  end.


(** [l[-1]]: the last item, [IndexError] on the empty list. *)
Definition item_last {A : Type} (l : list A) : result A :=
  match last l with
  | Some x => Ok x
  | None => Raise IndexError
  end.

(** [l[start:]] with Python's treatment of a negative or too large start. *)
Definition slice_from {A : Type} (start : Z) (l : list A) : list A :=
  let len := Z.of_nat (length l) in
  let lo := if (start <? 0)%Z then Z.max (start + len) 0 else Z.min start len in
  drop (Z.to_nat lo) l.

(** ** The pandas values the handler manipulates *)

(** A cell of a frame: a number read from the file, or the missing value
    that [reindex] writes where it has nothing to carry forward. Numbers
    are carried as they are. pandas itself casts an integer column to
    float64 when [reindex] writes a missing value into it, and [iterrows]
    casts a row of mixed types to float64; both casts leave a number of
    magnitude up to [2 ^ 53] as it is, and the properties that speak of
    the numbers a series holds are stated for files of such numbers
    ([float64_exact]). *)
Inductive cell :=
  | Num (x : Z)
  | NaN.

(** One row of a frame, with the column names given to [read_csv]. *)
Record Series := mkSeries {
  open : cell;
  high : cell;
  low : cell;
  close : cell;
  adj_close : cell;
  volume : cell
}.

Definition nan_row : Series := mkSeries NaN NaN NaN NaN NaN NaN.

(** A frame indexed on [datetime]: its rows in order, each with its label. *)
Abbreviation DataFrame := (list (Z * Series)).

(** What [iterrows] yields: the pair of the index label and the row. *)
Abbreviation bar := (Z * Series)%type.

Definition index (df : DataFrame) : list Z := fst <$> df.

(** [getattr(row, val_type)] for the six column names. Under another
    name the row object answers with one of its own attributes ([size],
    [ndim], ...) or with [AttributeError]; the embedding gives
    [AttributeError] there throughout, and no property below calls
    [getattr] outside the six names. *)
Definition getattr (r : Series) (val_type : string) : result cell :=
  if String.eqb val_type "open" then Ok (open r)
  else if String.eqb val_type "high" then Ok (high r)
  else if String.eqb val_type "low" then Ok (low r)
  else if String.eqb val_type "close" then Ok (close r)
  else if String.eqb val_type "adj_close" then Ok (adj_close r)
  else if String.eqb val_type "volume" then Ok (volume r)
  else Raise AttributeError.

(** [sort_values('datetime')]: ascending on the label, rows of equal label
    kept in file order. *)
Fixpoint insert_row (r : Z * Series) (df : DataFrame) : DataFrame :=
  match df with
  | [] => [r]
  | r' :: rest =>
      if (fst r <=? fst r')%Z then r :: df else r' :: insert_row r rest
  end.

Definition sort_values (df : DataFrame) : DataFrame := foldr insert_row [] df.

(** The row [method='pad'] selects for label [t] in a frame sorted on its
    labels: the row of the last label not after [t], if there is one. *)
Fixpoint pad_lookup (df : DataFrame) (t : Z) : option Series :=
  match df with
  | [] => None
  | (t', r) :: rest =>
      if (t' <=? t)%Z then
        match pad_lookup rest t with
        | Some r' => Some r'
        | None => Some r
        end
      else None
  end.

(** [df.reindex(index=idx, method='pad')]. A frame already carrying the
    requested index is returned as it is; otherwise pandas refuses a frame
    with a repeated label, and fills from the last label not after each
    requested one, leaving the missing value where there is none. *)
Definition reindex_pad (df : DataFrame) (idx : list Z) : result DataFrame :=
  if decide (index df = idx) then Ok df
  else if decide (NoDup (index df)) then
    Ok ((λ t, (t, default nan_row (pad_lookup df t))) <$> idx)
  else Raise ValueError.

(** The generator [iterrows()] returns: the rows it walks and how many it
    has already yielded. *)
Record iterrows := mkIter {
  rows : DataFrame;
  cursor : nat
}.

(** [next] on the generator: the row under the cursor and the advanced
    generator, or nothing once the rows are used up ([StopIteration]). *)
Definition next (g : iterrows) : option (bar * iterrows) :=
  match rows g !! cursor g with
  | Some b => Some (b, mkIter (rows g) (S (cursor g)))
  | None => None
  end.

(** Modelled from the spec: the class [MarketEvent] of the module [event],
    which is imported by [data.py] and is not part of the sources; the spec
    describes it as a type-tagged marker carrying no payload, and the
    handler builds it without arguments. *)
Inductive Event :=
  | MarketEvent.

(** ** The handler *)

(** During construction [symbol_data] binds a symbol first to its frame and
    then to the generator over the reindexed frame. *)
Inductive sdata :=
  | Frame (df : DataFrame)
  | Rows (g : iterrows).

Definition rows_of (v : sdata) : option iterrows :=
  match v with
  | Rows g => Some g
  | Frame _ => None
  end.

(** The attributes of a constructed handler. [events] is the queue, newest
    entry last. The files under [csv_dir] enter the construction as the
    function from a symbol to the parsed rows of its file. *)
Record HistoricCSVDataHandler := mkHandler {
  events : list Event;
  symbol_list : list string;
  symbol_data : gmap string iterrows;
  latest_symbol_data : gmap string (list bar);
  continue_backtest : bool
}.

Section Construction.

(** [csv s] is what [read_csv] returns for the file of symbol [s], or
    nothing when the call raises. *)
Variable csv : string → option DataFrame.

(** The first loop of [_open_convert_csv_files]. *)
Fixpoint read_loop (syms : list string)
    (sd : gmap string sdata) (lsd : gmap string (list bar))
    : result (gmap string sdata * gmap string (list bar)) :=
  match syms with
  | [] => Ok (sd, lsd)
  | s :: rest =>
      match csv s with
      | None => Raise ReadCsvError
      | Some raw =>
          read_loop rest (<[s := Frame (sort_values raw)]> sd) (<[s := []]> lsd)
      end
  end.

(** [self.symbol_data[s].index] *)
Definition index_of (sd : gmap string sdata) (s : string) : result (list Z) :=
  match sd !! s with
  | None => Raise KeyError
  | Some (Frame df) => Ok (index df)
  | Some (Rows _) => Raise AttributeError
  end.

(** The statement after the first loop, which reads the loop variable [s]
    as the loop left it: the last symbol of the list. [comb_index] is
    still [None] there, so the first branch is the one taken; the other
    calls [union] and drops what it returns. *)
Definition combine (syms : list string) (comb_index : option (list Z))
    (sd : gmap string sdata) (lsd : gmap string (list bar))
    : result (list Z * gmap string (list bar)) :=
  match last syms with
  | None => Raise NameError
  | Some s =>
      match comb_index with
      | None => idx ← index_of sd s; Ok (idx, lsd)
      | Some ci => _ ← index_of sd s; Ok (ci, <[s := []]> lsd)
      end
  end.

(** The second loop: each symbol's frame is reindexed and replaced by the
    generator over its rows. A symbol met a second time is bound to a
    generator, which has no [reindex]. *)
Fixpoint reindex_loop (syms : list string) (comb_index : list Z)
    (sd : gmap string sdata) : result (gmap string sdata) :=
  match syms with
  | [] => Ok sd
  | s :: rest =>
      match sd !! s with
      | None => Raise KeyError
      | Some (Rows _) => Raise AttributeError
      | Some (Frame df) =>
          df' ← reindex_pad df comb_index;
          reindex_loop rest comb_index (<[s := Rows (mkIter df' 0)]> sd)
      end
  end.

(** The index every frame is reindexed on. *)
Definition comb_index (syms : list string) : result (list Z) :=
  '(sd, lsd) ← read_loop syms ∅ ∅;
  '(idx, _) ← combine syms None sd lsd;
  Ok idx.

Definition _open_convert_csv_files (syms : list string)
    : result (gmap string sdata * gmap string (list bar)) :=
  '(sd, lsd) ← read_loop syms ∅ ∅;
  '(idx, lsd') ← combine syms None sd lsd;
  sd' ← reindex_loop syms idx sd;
  Ok (sd', lsd').

(** [__init__] *)
Definition __init__ (q : list Event) (syms : list string)
    : result HistoricCSVDataHandler :=
  '(sd, lsd) ← _open_convert_csv_files syms;
  Ok (mkHandler q syms (omap rows_of sd) lsd true).

End Construction.

(** ** Stepping *)

Definition set_continue (b : bool) (h : HistoricCSVDataHandler) :=
  mkHandler (events h) (symbol_list h) (symbol_data h) (latest_symbol_data h) b.

Definition put (e : Event) (h : HistoricCSVDataHandler) :=
  mkHandler (events h ++ [e]) (symbol_list h) (symbol_data h)
    (latest_symbol_data h) (continue_backtest h).

(** [next(self._get_new_bar(symbol))]: a fresh generator over the one
    bound to the symbol yields the next row of that one and advances it;
    nothing stands for [StopIteration]. *)
Definition _get_new_bar (h : HistoricCSVDataHandler) (symbol : string)
    : result (option (bar * iterrows)) :=
  match symbol_data h !! symbol with
  | None => Raise KeyError
  | Some g => Ok (next g)
  end.

(** The body of the loop of [update_bars] for one symbol. The row pulled
    is a pair, never [None], so it is always appended. *)
Definition update_symbol (s : string) (h : HistoricCSVDataHandler)
    : result HistoricCSVDataHandler :=
  pulled ← _get_new_bar h s;
  match pulled with
  | None => Ok (set_continue false h)
  | Some (b, g') =>
      match latest_symbol_data h !! s with
      | None => Raise KeyError
      | Some l =>
          Ok (mkHandler (events h) (symbol_list h)
                (<[s := g']> (symbol_data h))
                (<[s := l ++ [b]]> (latest_symbol_data h))
                (continue_backtest h))
      end
  end.

Fixpoint update_loop (syms : list string) (h : HistoricCSVDataHandler)
    : result HistoricCSVDataHandler :=
  match syms with
  | [] => Ok h
  | s :: rest => h' ← update_symbol s h; update_loop rest h'
  end.

Definition update_bars (h : HistoricCSVDataHandler) : result HistoricCSVDataHandler :=
  h' ← update_loop (symbol_list h) h;
  Ok (put MarketEvent h').

(** [k] calls of [update_bars] in a row. *)
Fixpoint run (k : nat) (h : HistoricCSVDataHandler) : result HistoricCSVDataHandler :=
  match k with
  | 0 => Ok h
  | S k' => h' ← run k' h; update_bars h'
  end.

(** ** Accessors *)

(** [self.latest_symbol_data[symbol]], whose [KeyError] every accessor
    raises again after printing. *)
Definition bars_list (h : HistoricCSVDataHandler) (symbol : string) : result (list bar) :=
  match latest_symbol_data h !! symbol with
  | Some l => Ok l
  | None => Raise KeyError
  end.

Definition get_latest_bar (h : HistoricCSVDataHandler) (symbol : string) : result bar :=
  l ← bars_list h symbol; item_last l.

Definition get_latest_bars (h : HistoricCSVDataHandler) (symbol : string) (N : Z)
    : result (list bar) :=
  l ← bars_list h symbol; Ok (slice_from (- N) l).

Definition get_latest_bar_datetime (h : HistoricCSVDataHandler) (symbol : string)
    : result Z :=
  l ← bars_list h symbol; b ← item_last l; Ok (fst b).

Definition get_latest_bar_value (h : HistoricCSVDataHandler) (symbol val_type : string)
    : result cell :=
  l ← bars_list h symbol; b ← item_last l; getattr (snd b) val_type.

(** The list comprehension under [np.array]. *)
Fixpoint values_of (val_type : string) (l : list bar) : result (list cell) :=
  match l with
  | [] => Ok []
  | b :: rest =>
      v ← getattr (snd b) val_type;
      vs ← values_of val_type rest;
      Ok (v :: vs)
  end.

Definition get_latest_bars_values (h : HistoricCSVDataHandler)
    (symbol val_type : string) (N : Z) : result (list cell) :=
  l ← get_latest_bars h symbol N; values_of val_type l.

(** ** Vocabulary of the properties *)

(** A generator that has yielded all its rows. *)
Definition exhausted (g : iterrows) : Prop := rows g !! cursor g = None.

(** The handlers on which [update_bars] is studied: the registered symbols
    are distinct, and each is bound to a generator and to a history. Every
    constructed handler is of this kind, at any later step. *)
Definition well_formed (h : HistoricCSVDataHandler) : Prop :=
  NoDup (symbol_list h) ∧
  Forall (λ s, is_Some (symbol_data h !! s) ∧
               is_Some (latest_symbol_data h !! s)) (symbol_list h).

#[global] Instance well_formed_dec (h : HistoricCSVDataHandler) :
  Decision (well_formed h).
Proof. unfold well_formed. apply _. Defined.

(** The state of a feed reindexed on [comb] after [k] steps: every
    registered symbol has yielded the first [k] rows of its frame, and its
    history holds exactly these. *)
Definition feed_inv (comb : list Z) (k : nat) (h : HistoricCSVDataHandler) : Prop :=
  NoDup (symbol_list h) ∧
  (∀ s, s ∈ symbol_list h →
     ∃ df, index df = comb ∧
           symbol_data h !! s = Some (mkIter df (min k (length comb))) ∧
           latest_symbol_data h !! s = Some (take k df)) ∧
  (∀ s, s ∉ symbol_list h → latest_symbol_data h !! s = None).

(** The files whose numbers the float64 casts of pandas leave unchanged:
    every number is of magnitude at most [2 ^ 53]. *)
Definition float64_exact_cell (c : cell) : Prop :=
  match c with
  | Num x => (Z.abs x ≤ 2 ^ 53)%Z
  | NaN => True
  end.

Definition float64_exact_row (r : Series) : Prop :=
  float64_exact_cell (open r) ∧ float64_exact_cell (high r) ∧
  float64_exact_cell (low r) ∧ float64_exact_cell (close r) ∧
  float64_exact_cell (adj_close r) ∧ float64_exact_cell (volume r).

Definition float64_exact (df : DataFrame) : Prop :=
  Forall (λ b, float64_exact_row (snd b)) df.

#[global] Instance float64_exact_cell_dec (c : cell) :
  Decision (float64_exact_cell c).
Proof. destruct c; simpl; apply _. Defined.

#[global] Instance float64_exact_dec (df : DataFrame) :
  Decision (float64_exact df).
Proof. unfold float64_exact, float64_exact_row. apply _. Defined.

(** The [k]-th entry of an index, counting from one. *)
Definition kth (k : nat) (idx : list Z) : option Z :=
  match k with
  | 0 => None
  | S k' => idx !! k'
  end.

(** The canonical index in the words of the specification, to compare
    with [comb_index]: the ascending sorted union of the native timestamp
    sets of all the symbols. *)
Fixpoint insert_label (t : Z) (l : list Z) : list Z :=
  match l with
  | [] => [t]
  | t' :: rest =>
      if (t <? t')%Z then t :: l
      else if (t =? t')%Z then l
      else t' :: insert_label t rest
  end.

Definition native_labels (csv : string → option DataFrame) (s : string) : list Z :=
  match csv s with
  | Some raw => index raw
  | None => []
  end.

Definition canonical_index_spec (csv : string → option DataFrame)
    (syms : list string) : list Z :=
  foldr insert_label [] (syms ≫= native_labels csv).

(** The closes of a frame, in order. *)
Definition closes (df : DataFrame) : list cell := (λ b, close (snd b)) <$> df.


(** ** Sample data *)

(** A row quoted at one price. *)
Definition quote (x : Z) : Series :=
  mkSeries (Num x) (Num x) (Num x) (Num x) (Num x) (Num 0).

(** The two files of the end-to-end scenario of the specification. *)
Definition csv_AB (s : string) : option DataFrame :=
  if String.eqb s "A" then
    Some [(1, quote 10); (2, quote 11); (4, quote 13)]%Z
  else if String.eqb s "B" then
    Some [(1, quote 100); (3, quote 102); (4, quote 104)]%Z
  else None.

(** Two files of which the first starts one step after the second. *)
Definition csv_late (s : string) : option DataFrame :=
  if String.eqb s "A" then
    Some [(2, quote 11); (3, quote 12)]%Z
  else if String.eqb s "B" then
    Some [(1, quote 100); (2, quote 101); (3, quote 102)]%Z
  else None.

(** Two files of which the second starts after the first and is the
    only one with the timestamp 3. *)
Definition csv_gap (s : string) : option DataFrame :=
  if String.eqb s "A" then
    Some [(1, quote 10); (5, quote 11)]%Z
  else if String.eqb s "B" then
    Some [(3, quote 100); (5, quote 101)]%Z
  else None.

(** One file with a single row. *)
Definition csv_A (s : string) : option DataFrame :=
  if String.eqb s "A" then Some [(1, quote 10)]%Z else None.

(** The handler the construction returns on [csv_AB] for ["A"; "B"], and
    the handler two steps later. *)
Definition h_AB : HistoricCSVDataHandler :=
  mkHandler []
    ["A"; "B"]
    (<["A" := mkIter [(1, quote 10); (3, quote 11); (4, quote 13)]%Z 0]>
       (<["B" := mkIter [(1, quote 100); (3, quote 102); (4, quote 104)]%Z 0]> ∅))
    (<["A" := []]> (<["B" := []]> ∅))
    true.

Definition h_AB_2 : HistoricCSVDataHandler :=
  mkHandler [MarketEvent; MarketEvent]
    ["A"; "B"]
    (<["A" := mkIter [(1, quote 10); (3, quote 11); (4, quote 13)]%Z 2]>
       (<["B" := mkIter [(1, quote 100); (3, quote 102); (4, quote 104)]%Z 2]> ∅))
    (<["A" := [(1, quote 10); (3, quote 11)]%Z]>
       (<["B" := [(1, quote 100); (3, quote 102)]%Z]> ∅))
    true.

(** A handler in which ["A"] has yielded its only row and ["B"] has one
    more to yield. *)
Definition h_uneven : HistoricCSVDataHandler :=
  mkHandler []
    ["A"; "B"]
    (<["A" := mkIter [(1, quote 10)]%Z 1]>
       (<["B" := mkIter [(1, quote 100); (2, quote 101)]%Z 1]> ∅))
    (<["A" := [(1, quote 10)]%Z]> (<["B" := [(1, quote 100)]%Z]> ∅))
    true.

(** A handler whose two generators have yielded all their rows. *)
Definition h_done : HistoricCSVDataHandler :=
  mkHandler [MarketEvent]
    ["A"; "B"]
    (<["A" := mkIter [(1, quote 10)]%Z 1]>
       (<["B" := mkIter [(1, quote 100)]%Z 1]> ∅))
    (<["A" := [(1, quote 10)]%Z]> (<["B" := [(1, quote 100)]%Z]> ∅))
    true.

(** The handler the construction returns on [csv_A] for ["A"]. *)
Definition h_fresh : HistoricCSVDataHandler :=
  mkHandler []
    ["A"]
    (<["A" := mkIter [(1, quote 10)]%Z 0]> ∅)
    (<["A" := []]> ∅)
    true.

(** * Properties *)

(** ** Sorting and the forward fill *)

#[local] Arguments index : simpl never.

Lemma index_cons (r : Z * Series) (df : DataFrame) :
  index (r :: df) = fst r :: index df.
Proof. reflexivity. Qed.

Lemma index_insert_row (r : Z * Series) (df : DataFrame) :
  index (insert_row r df) ≡ₚ fst r :: index df.
Proof.
  induction df as [|r' df IH]; simpl; [done|].
  destruct (fst r <=? fst r')%Z; [done|].
  rewrite !index_cons, IH. apply Permutation_swap.
Qed.

Lemma insert_row_sorted (r : Z * Series) (df : DataFrame) :
  StronglySorted Z.le (index df) →
  StronglySorted Z.le (index (insert_row r df)).
Proof.
  induction df as [|r' df IH]; simpl; intros Hs.
  - rewrite index_cons. repeat constructor.
  - rewrite index_cons in Hs. inversion Hs as [|? ? Hs' Hall]; subst.
    destruct (fst r <=? fst r')%Z eqn:Hle.
    + apply Z.leb_le in Hle. rewrite !index_cons.
      constructor; [by constructor|].
      constructor; [done|].
      eapply Forall_impl; [exact Hall|]. simpl. intros; lia.
    + apply Z.leb_gt in Hle. rewrite index_cons.
      constructor; [by apply IH|].
      rewrite index_insert_row. constructor; [lia|done].
Qed.

Lemma sort_values_sorted (df : DataFrame) :
  StronglySorted Z.le (index (sort_values df)).
Proof.
  induction df as [|r df IH]; simpl; [constructor|].
  by apply insert_row_sorted.
Qed.

Lemma sort_values_index (df : DataFrame) :
  index (sort_values df) ≡ₚ index df.
Proof.
  induction df as [|r df IH]; simpl; [done|].
  by rewrite index_insert_row, IH.
Qed.

Lemma insert_row_perm (r : Z * Series) (df : DataFrame) :
  insert_row r df ≡ₚ r :: df.
Proof.
  induction df as [|r' df IH]; simpl; [done|].
  destruct (fst r <=? fst r')%Z; [done|].
  rewrite IH. apply Permutation_swap.
Qed.

(** Sorting keeps the rows. *)
Lemma sort_values_perm (df : DataFrame) : sort_values df ≡ₚ df.
Proof.
  induction df as [|r df IH]; simpl; [done|].
  by rewrite insert_row_perm, IH.
Qed.

Lemma pad_lookup_before (df : DataFrame) (t : Z) :
  (∀ t', t' ∈ index df → (t < t')%Z) → pad_lookup df t = None.
Proof.
  destruct df as [|[t' r] rest]; simpl; intros Hb; [done|].
  assert (t < t')%Z as Hlt by (apply Hb; rewrite index_cons; left).
  apply Z.leb_gt in Hlt. by rewrite Hlt.
Qed.

Lemma pad_lookup_None (df : DataFrame) (t : Z) :
  StronglySorted Z.le (index df) →
  pad_lookup df t = None →
  ∀ t', t' ∈ index df → (t < t')%Z.
Proof.
  destruct df as [|[t1 r1] rest]; simpl; intros Hs Hp t' Hin.
  - by apply elem_of_nil in Hin.
  - rewrite index_cons in Hs, Hin. simpl in Hs, Hin. destruct (t1 <=? t)%Z eqn:Hle.
    + by destruct (pad_lookup rest t).
    + apply Z.leb_gt in Hle. inversion Hs as [|? ? _ Hall]; subst.
      apply elem_of_cons in Hin as [->|Hin]; [done|].
      rewrite Forall_forall in Hall. specialize (Hall _ Hin). lia.
Qed.

Lemma pad_lookup_Some (df : DataFrame) (t : Z) (r : Series) :
  StronglySorted Z.le (index df) →
  pad_lookup df t = Some r →
  ∃ t', (t', r) ∈ df ∧ (t' ≤ t)%Z ∧
        ∀ t'', t'' ∈ index df → (t'' ≤ t)%Z → (t'' ≤ t')%Z.
Proof.
  induction df as [|[t1 r1] rest IH]; simpl; intros Hs Hp; [done|].
  rewrite index_cons in Hs |- *. simpl in Hs |- *.
  inversion Hs as [|? ? Hs' Hall]; subst. rewrite Forall_forall in Hall.
  destruct (t1 <=? t)%Z eqn:Hle; [|done]. apply Z.leb_le in Hle.
  destruct (pad_lookup rest t) as [r'|] eqn:Hrest.
  - injection Hp as ->. destruct (IH Hs' eq_refl) as (t' & Hin & Ht' & Hmax).
    exists t'. split_and!; [by right|done|].
    intros t'' Hin'' Hle''. apply elem_of_cons in Hin'' as [->|Hin''].
    + apply Hall. apply (list_elem_of_fmap_2 fst) in Hin. exact Hin.
    + by apply Hmax.
  - injection Hp as ->. exists t1. split_and!; [by left|done|].
    intros t'' Hin'' Hle''. apply elem_of_cons in Hin'' as [->|Hin'']; [done|].
    pose proof (pad_lookup_None rest t Hs' Hrest t'' Hin''). lia.
Qed.

Lemma index_functional (df : DataFrame) (t : Z) (r1 r2 : Series) :
  NoDup (index df) → (t, r1) ∈ df → (t, r2) ∈ df → r1 = r2.
Proof.
  induction df as [|[t0 r0] rest IH]; simpl; intros Hnd H1 H2.
  - by apply elem_of_nil in H1.
  - rewrite index_cons in Hnd. simpl in Hnd. apply NoDup_cons in Hnd as [Hnotin Hnd].
    apply elem_of_cons in H1 as [H1|H1]; apply elem_of_cons in H2 as [H2|H2].
    + congruence.
    + injection H1 as -> ->. exfalso. apply Hnotin.
      apply (list_elem_of_fmap_2 fst) in H2. exact H2.
    + injection H2 as -> ->. exfalso. apply Hnotin.
      apply (list_elem_of_fmap_2 fst) in H1. exact H1.
    + by apply IH.
Qed.

(** In a sorted frame without repeated labels, the forward fill returns
    the row of a label that is present. *)
Lemma pad_lookup_native (df : DataFrame) (t : Z) (r : Series) :
  StronglySorted Z.le (index df) → NoDup (index df) →
  (t, r) ∈ df → pad_lookup df t = Some r.
Proof.
  intros Hs Hnd Hin.
  assert (t ∈ index df) as Hti.
  { apply (list_elem_of_fmap_2 fst) in Hin. exact Hin. }
  destruct (pad_lookup df t) as [r0|] eqn:Hp.
  - destruct (pad_lookup_Some df t r0 Hs Hp) as (t' & Hin' & Hle & Hmax).
    assert (t' = t) as -> by (specialize (Hmax t Hti); lia).
    f_equal. by eapply index_functional.
  - pose proof (pad_lookup_None df t Hs Hp t Hti). lia.
Qed.

(** ** Reindexing *)

Lemma reindex_pad_index (df df' : DataFrame) (idx : list Z) :
  reindex_pad df idx = Ok df' → index df' = idx.
Proof.
  unfold reindex_pad. intros H.
  destruct (decide (index df = idx)) as [Heq|_]; [congruence|].
  destruct (decide (NoDup (index df))); [|done].
  injection H as <-. unfold index. rewrite map_map. simpl. apply map_id.
Qed.


(** Every row of the reindexed frame is a row of the frame itself or the
    forward fill at its label. *)
Lemma reindex_pad_rows (df df' : DataFrame) (idx : list Z) (t : Z) (r : Series) :
  reindex_pad df idx = Ok df' → (t, r) ∈ df' →
  (t, r) ∈ df ∨ r = default nan_row (pad_lookup df t).
Proof.
  unfold reindex_pad. intros H Hin.
  destruct (decide (index df = idx)) as [Heq|_]; [left; congruence|].
  destruct (decide (NoDup (index df))); [|done].
  injection H as <-. right.
  apply list_elem_of_fmap in Hin as (t0 & Heq & _). by injection Heq as -> ->.
Qed.

(** Alignment on the index the frame is reindexed on: a label of the frame
    keeps its row, a label between two of the frame takes the row of the
    latest earlier one, a label before all of them takes the missing row. *)
Lemma reindex_pad_aligned (df df' : DataFrame) (idx : list Z) (t : Z) (r : Series) :
  StronglySorted Z.le (index df) → NoDup (index df) →
  reindex_pad df idx = Ok df' → (t, r) ∈ df' →
  (∀ r0, (t, r0) ∈ df → r = r0) ∧
  (t ∉ index df →
     ∀ t' r0, (t', r0) ∈ df → (t' < t)%Z →
       (∀ t'', t'' ∈ index df → (t'' < t)%Z → (t'' ≤ t')%Z) → r = r0) ∧
  ((∀ t', t' ∈ index df → (t < t')%Z) → r = nan_row).
Proof.
  intros Hs Hnd Hre Hin.
  assert (∀ r0, (t, r0) ∈ df → r = r0) as Hnative.
  { intros r0 Hr0. destruct (reindex_pad_rows _ _ _ _ _ Hre Hin) as [Hd| ->].
    - by eapply index_functional.
    - by rewrite (pad_lookup_native df t r0). }
  split_and!; [done| |].
  - intros Hnot t' r0 Hin0 Hlt Hmax.
    destruct (reindex_pad_rows _ _ _ _ _ Hre Hin) as [Hd| ->].
    { exfalso. apply Hnot. apply (list_elem_of_fmap_2 fst) in Hd. exact Hd. }
    assert (t' ∈ index df) as Ht'.
    { apply (list_elem_of_fmap_2 fst) in Hin0. exact Hin0. }
    destruct (pad_lookup df t) as [r1|] eqn:Hp; simpl.
    + destruct (pad_lookup_Some df t r1 Hs Hp) as (t1 & Hin1 & Hle1 & Hmax1).
      assert (t1 ∈ index df) as Ht1.
      { apply (list_elem_of_fmap_2 fst) in Hin1. exact Hin1. }
      assert (t1 ≠ t) by (intros ->; done).
      assert (t1 = t') as ->.
      { specialize (Hmax1 t' Ht'). specialize (Hmax t1 Ht1). lia. }
      by eapply index_functional.
    + pose proof (pad_lookup_None df t Hs Hp t' Ht'). lia.
  - intros Hb. destruct (reindex_pad_rows _ _ _ _ _ Hre Hin) as [Hd| ->].
    + apply (list_elem_of_fmap_2 fst) in Hd. specialize (Hb _ Hd). simpl in Hb. lia.
    + by rewrite pad_lookup_before.
Qed.

(** ** Construction *)

Section ConstructionFacts.

Variable csv : string → option DataFrame.

Lemma read_loop_spec (syms : list string) :
  ∀ sd lsd sd' lsd',
    read_loop csv syms sd lsd = Ok (sd', lsd') →
    (∀ s, s ∈ syms →
       ∃ raw, csv s = Some raw ∧
              sd' !! s = Some (Frame (sort_values raw)) ∧
              lsd' !! s = Some []) ∧
    (∀ s, s ∉ syms → sd' !! s = sd !! s ∧ lsd' !! s = lsd !! s).
Proof.
  induction syms as [|s0 rest IH]; simpl; intros sd lsd sd' lsd' H.
  - injection H as <- <-. split; [|done].
    intros s Hs. by apply elem_of_nil in Hs.
  - destruct (csv s0) as [raw|] eqn:Hcsv; [|done].
    apply IH in H as [Hin Hout]. split.
    + intros s Hs. destruct (decide (s ∈ rest)) as [Hr|Hr]; [by apply Hin|].
      apply elem_of_cons in Hs as [->|Hs]; [|done].
      destruct (Hout _ Hr) as [-> ->]. exists raw.
      by rewrite !lookup_insert_eq.
    + intros s Hs. apply not_elem_of_cons in Hs as [Hne Hs].
      destruct (Hout _ Hs) as [-> ->]. by rewrite !lookup_insert_ne.
Qed.

Lemma read_loop_ok (syms : list string) :
  ∀ sd lsd,
    (∀ s, s ∈ syms → is_Some (csv s)) →
    ∃ sd' lsd', read_loop csv syms sd lsd = Ok (sd', lsd').
Proof.
  induction syms as [|s0 rest IH]; simpl; intros sd lsd Hall.
  - by eexists _, _.
  - destruct (Hall s0) as [raw ->]; [left|].
    apply IH. intros s Hs. apply Hall. by right.
Qed.

Lemma reindex_loop_spec (comb : list Z) (syms : list string) :
  ∀ sd sd',
    reindex_loop syms comb sd = Ok sd' →
    NoDup syms ∧
    (∀ s, s ∈ syms →
       ∃ df df', sd !! s = Some (Frame df) ∧
                 reindex_pad df comb = Ok df' ∧
                 sd' !! s = Some (Rows (mkIter df' 0))) ∧
    (∀ s, s ∉ syms → sd' !! s = sd !! s).
Proof.
  induction syms as [|s0 rest IH]; simpl; intros sd sd' H.
  - injection H as <-. split_and!; [constructor| |done].
    intros s Hs. by apply elem_of_nil in Hs.
  - destruct (sd !! s0) as [[df|g]|] eqn:Hs0; [|done|done].
    destruct (reindex_pad df comb) as [df'|] eqn:Hre; [|done]. simpl in H.
    apply IH in H as (Hnd & Hin & Hout).
    assert (s0 ∉ rest) as Hfresh.
    { intros Hr. destruct (Hin _ Hr) as (? & ? & Hl & _).
      by rewrite lookup_insert_eq in Hl. }
    split_and!.
    + by constructor.
    + intros s Hs. apply elem_of_cons in Hs as [->|Hs].
      * exists df, df'. split_and!; [done|done|].
        rewrite (Hout _ Hfresh). by rewrite lookup_insert_eq.
      * destruct (Hin _ Hs) as (df1 & df1' & Hl & Hre1 & Hl').
        exists df1, df1'. split_and!; [|done|done].
        rewrite lookup_insert_ne in Hl; [done|]. by intros ->.
    + intros s Hs. apply not_elem_of_cons in Hs as [Hne Hs].
      rewrite (Hout _ Hs). by rewrite lookup_insert_ne.
Qed.


End ConstructionFacts.

Section InitFacts.

Variable csv : string → option DataFrame.

(** The index every frame is reindexed on is the sorted index of the
    last symbol of the list. *)
Lemma comb_index_spec (syms : list string) (comb : list Z) :
  comb_index csv syms = Ok comb →
  ∃ s raw, last syms = Some s ∧ csv s = Some raw ∧
           comb = index (sort_values raw).
Proof.
  unfold comb_index. intros H.
  destruct (read_loop csv syms ∅ ∅) as [[sd lsd]|] eqn:Hread; [|done].
  simpl in H. unfold combine in H.
  destruct (last syms) as [s|] eqn:Hlast; [|done]. simpl in H.
  destruct (read_loop_spec csv syms _ _ _ _ Hread) as [Hin _].
  destruct (Hin s) as (raw & Hcsv & Hsd & _).
  { by eapply last_Some_elem_of. }
  unfold index_of in H. rewrite Hsd in H. simpl in H.
  injection H as <-. by exists s, raw.
Qed.

Lemma comb_index_sorted (syms : list string) (comb : list Z) :
  comb_index csv syms = Ok comb → StronglySorted Z.le comb.
Proof.
  intros H. destruct (comb_index_spec _ _ H) as (s & raw & _ & _ & ->).
  apply sort_values_sorted.
Qed.

(** What a successful construction has built. *)
Lemma init_spec (q : list Event) (syms : list string) (h : HistoricCSVDataHandler) :
  __init__ csv q syms = Ok h →
  ∃ comb,
    comb_index csv syms = Ok comb ∧ NoDup syms ∧
    symbol_list h = syms ∧ events h = q ∧ continue_backtest h = true ∧
    (∀ s, s ∈ syms →
       ∃ raw df', csv s = Some raw ∧
                  reindex_pad (sort_values raw) comb = Ok df' ∧
                  symbol_data h !! s = Some (mkIter df' 0) ∧
                  latest_symbol_data h !! s = Some []) ∧
    (∀ s, s ∉ syms → latest_symbol_data h !! s = None).
Proof.
  unfold __init__, _open_convert_csv_files, comb_index. intros H.
  destruct (read_loop csv syms ∅ ∅) as [[sd lsd]|] eqn:Hread; [|done].
  simpl in H |- *.
  destruct (combine syms None sd lsd) as [[comb lsd']|] eqn:Hcomb; [|done].
  simpl in H |- *.
  destruct (reindex_loop syms comb sd) as [sd'|] eqn:Hre; [|done].
  simpl in H. injection H as <-. simpl.
  assert (lsd' = lsd) as ->.
  { unfold combine in Hcomb. destruct (last syms); [|done].
    destruct (index_of sd s); [|done]. simpl in Hcomb. congruence. }
  destruct (read_loop_spec csv syms _ _ _ _ Hread) as [Hin Hout].
  destruct (reindex_loop_spec comb syms _ _ Hre) as (Hnd & Hin' & _).
  exists comb. split_and!; try done.
  - intros s Hs. destruct (Hin _ Hs) as (raw & Hcsv & Hsd & Hlsd).
    destruct (Hin' _ Hs) as (df & df' & Hsd0 & Hpad & Hsd').
    rewrite Hsd in Hsd0. injection Hsd0 as <-.
    exists raw, df'. split_and!; try done.
    by rewrite lookup_omap, Hsd'.
  - intros s Hs. destruct (Hout _ Hs) as [_ ->]. apply lookup_empty.
Qed.


End InitFacts.

(** When [_open_convert_csv_files] returns, every binding of [symbol_data]
    is a generator: the handler record loses nothing in keeping these. *)
Lemma open_convert_all_rows (csv : string → option DataFrame)
    (syms : list string) (sd : gmap string sdata)
    (lsd : gmap string (list bar)) (s : string) (v : sdata) :
  _open_convert_csv_files csv syms = Ok (sd, lsd) →
  sd !! s = Some v → ∃ g, v = Rows g.
Proof.
  unfold _open_convert_csv_files. intros H Hv.
  destruct (read_loop csv syms ∅ ∅) as [[sd0 lsd0]|] eqn:Hread; [|done].
  simpl in H.
  destruct (combine syms None sd0 lsd0) as [[comb lsd']|] eqn:Hcomb; [|done].
  simpl in H.
  destruct (reindex_loop syms comb sd0) as [sd'|] eqn:Hre; [|done].
  simpl in H. injection H as -> ->.
  destruct (read_loop_spec csv syms _ _ _ _ Hread) as [_ Hout].
  destruct (reindex_loop_spec comb syms _ _ Hre) as (_ & Hin' & Hout').
  destruct (decide (s ∈ syms)) as [Hs|Hs].
  - destruct (Hin' _ Hs) as (? & df' & _ & _ & Hsd). rewrite Hsd in Hv.
    injection Hv as <-. by eexists.
  - rewrite (Hout' _ Hs) in Hv. destruct (Hout _ Hs) as [Hsd _].
    rewrite Hsd, lookup_empty in Hv. done.
Qed.

(** Alignment on the index the construction uses: in the series of a
    symbol whose file has distinct timestamps, the row at an entry of the
    index is the native row when the entry is a native timestamp, else the
    native row of the latest earlier native timestamp, else the missing
    row. *)
Lemma init_aligned (csv : string → option DataFrame) (q : list Event)
    (syms : list string) (h : HistoricCSVDataHandler)
    (s : string) (raw : DataFrame) (g : iterrows) (t : Z) (r : Series) :
  __init__ csv q syms = Ok h → s ∈ syms → csv s = Some raw → NoDup (index raw) →
  symbol_data h !! s = Some g → (t, r) ∈ rows g →
  (∀ r0, (t, r0) ∈ raw → r = r0) ∧
  (t ∉ index raw →
     ∀ t' r0, (t', r0) ∈ raw → (t' < t)%Z →
       (∀ t'', t'' ∈ index raw → (t'' < t)%Z → (t'' ≤ t')%Z) → r = r0) ∧
  ((∀ t', t' ∈ index raw → (t < t')%Z) → r = nan_row).
Proof.
  intros Hinit Hs Hcsv Hraw Hg Hr.
  destruct (init_spec _ _ _ _ Hinit) as (comb & _ & _ & _ & _ & _ & Hin & _).
  destruct (Hin _ Hs) as (raw' & df' & Hcsv' & Hpad & Hsd & _).
  rewrite Hcsv in Hcsv'. injection Hcsv' as <-.
  rewrite Hsd in Hg. injection Hg as <-. simpl in Hr.
  destruct (reindex_pad_aligned (sort_values raw) df' comb t r)
    as (Hnat & Hfill & Hnan); [| |done|done|].
  - apply sort_values_sorted.
  - by rewrite sort_values_index.
  - split_and!.
    + intros r0 Hr0. apply Hnat. by rewrite sort_values_perm.
    + intros Hnot t' r0 Hr0 Hlt Hmax. apply (Hfill) with (t' := t').
      * by rewrite sort_values_index.
      * by rewrite sort_values_perm.
      * done.
      * intros t'' Ht''. apply Hmax. by rewrite <- sort_values_index.
    + intros Hb. apply Hnan. intros t' Ht'. apply Hb.
      by rewrite <- sort_values_index.
Qed.

(** ** Stepping *)

Lemma update_loop_spec (syms : list string) :
  ∀ h,
    NoDup syms →
    (∀ s, s ∈ syms → is_Some (symbol_data h !! s) ∧
                     is_Some (latest_symbol_data h !! s)) →
    ∃ h',
      update_loop syms h = Ok h' ∧
      events h' = events h ∧ symbol_list h' = symbol_list h ∧
      (∀ s g l, s ∈ syms → symbol_data h !! s = Some g →
         latest_symbol_data h !! s = Some l →
         match rows g !! cursor g with
         | Some b =>
             symbol_data h' !! s = Some (mkIter (rows g) (S (cursor g))) ∧
             latest_symbol_data h' !! s = Some (l ++ [b])
         | None =>
             symbol_data h' !! s = Some g ∧ latest_symbol_data h' !! s = Some l
         end) ∧
      (∀ s, s ∉ syms →
         symbol_data h' !! s = symbol_data h !! s ∧
         latest_symbol_data h' !! s = latest_symbol_data h !! s) ∧
      (continue_backtest h' = true ↔
         continue_backtest h = true ∧
         ∀ s g, s ∈ syms → symbol_data h !! s = Some g → ¬ exhausted g).
Proof.
  induction syms as [|s0 rest IH]; simpl; intros h Hnd Hall.
  - exists h. split_and!; try done.
    + intros s g l Hs. by apply elem_of_nil in Hs.
    + split; [|by intros [? _]]. intros Hc. split; [done|].
      intros s g Hs. by apply elem_of_nil in Hs.
  - apply NoDup_cons in Hnd as [Hfresh Hnd].
    destruct (Hall s0) as [[g0 Hg0] [l0 Hl0]]; [left|].
    unfold update_symbol, _get_new_bar, next. rewrite Hg0. simpl.
    destruct (rows g0 !! cursor g0) as [b|] eqn:Hnext.
    + rewrite Hl0. simpl.
      set (h1 := mkHandler _ _ _ _ _).
      destruct (IH h1 Hnd) as (h' & Hrun & Hev & Hsl & Hin & Hout & Hflag).
      { intros s Hs. assert (s0 ≠ s) by (by intros ->). simpl.
        rewrite !lookup_insert_ne by done. apply Hall. by right. }
      exists h'. split_and!; try done.
      * intros s g l Hs Hg Hl. apply elem_of_cons in Hs as [->|Hs].
        -- rewrite Hg0 in Hg. rewrite Hl0 in Hl. simplify_eq. rewrite Hnext.
           destruct (Hout _ Hfresh) as [-> ->]. simpl.
           by rewrite !lookup_insert_eq.
        -- assert (s0 ≠ s) by (by intros ->).
           apply (Hin s g l Hs); simpl; by rewrite lookup_insert_ne.
      * intros s Hs. apply not_elem_of_cons in Hs as [Hne Hs].
        destruct (Hout _ Hs) as [-> ->]. simpl.
        by rewrite !lookup_insert_ne.
      * rewrite Hflag. simpl. split; intros [Hc Hex]; (split; [done|]).
        -- intros s g Hs Hg. apply elem_of_cons in Hs as [->|Hs].
           ++ rewrite Hg0 in Hg. simplify_eq. unfold exhausted.
              by rewrite Hnext.
           ++ assert (s0 ≠ s) by (by intros ->).
              apply (Hex s g Hs). by rewrite lookup_insert_ne.
        -- intros s g Hs Hg. assert (s0 ≠ s) by (by intros ->).
           rewrite lookup_insert_ne in Hg by done.
           apply (Hex s g); [by right|done].
    + simpl.
      destruct (IH (set_continue false h) Hnd)
        as (h' & Hrun & Hev & Hsl & Hin & Hout & Hflag).
      { intros s Hs. simpl. apply Hall. by right. }
      exists h'. split_and!; try done.
      * intros s g l Hs Hg Hl. apply elem_of_cons in Hs as [->|Hs].
        -- rewrite Hg0 in Hg. rewrite Hl0 in Hl. simplify_eq. rewrite Hnext.
           destruct (Hout _ Hfresh) as [-> ->]. by simpl.
        -- by apply (Hin s g l Hs).
      * intros s Hs. apply not_elem_of_cons in Hs as [Hne Hs].
        by destruct (Hout _ Hs) as [-> ->].
      * split.
        -- intros Hc. apply Hflag in Hc as [Hc _]. done.
        -- intros [_ Hex]. exfalso. apply (Hex s0 g0); [left|done|done].
Qed.

Lemma well_formed_lookup (h : HistoricCSVDataHandler) (s : string) :
  well_formed h → s ∈ symbol_list h →
  is_Some (symbol_data h !! s) ∧ is_Some (latest_symbol_data h !! s).
Proof.
  intros [_ Hall] Hs. rewrite Forall_forall in Hall. by apply Hall.
Qed.

(** One step on a well-formed handler: it returns, queues one event, and
    treats every registered symbol on its own. *)
Lemma update_bars_spec (h : HistoricCSVDataHandler) :
  well_formed h →
  ∃ h',
    update_bars h = Ok h' ∧
    events h' = events h ++ [MarketEvent] ∧
    symbol_list h' = symbol_list h ∧
    (∀ s g l, s ∈ symbol_list h → symbol_data h !! s = Some g →
       latest_symbol_data h !! s = Some l →
       match rows g !! cursor g with
       | Some b =>
           symbol_data h' !! s = Some (mkIter (rows g) (S (cursor g))) ∧
           latest_symbol_data h' !! s = Some (l ++ [b])
       | None =>
           symbol_data h' !! s = Some g ∧ latest_symbol_data h' !! s = Some l
       end) ∧
    (∀ s, s ∉ symbol_list h →
       symbol_data h' !! s = symbol_data h !! s ∧
       latest_symbol_data h' !! s = latest_symbol_data h !! s) ∧
    (continue_backtest h' = true ↔
       continue_backtest h = true ∧
       ∀ s g, s ∈ symbol_list h → symbol_data h !! s = Some g → ¬ exhausted g).
Proof.
  intros Hwf.
  destruct (update_loop_spec (symbol_list h) h) as
    (h1 & Hrun & Hev & Hsl & Hin & Hout & Hflag).
  { apply Hwf. }
  { intros s Hs. by apply well_formed_lookup. }
  unfold update_bars. rewrite Hrun. simpl.
  eexists. split; [done|]. simpl. rewrite Hev. by split_and!.
Qed.

(** ** The feed after [k] steps *)

Lemma feed_inv_well_formed (comb : list Z) (k : nat) (h : HistoricCSVDataHandler) :
  feed_inv comb k h → well_formed h.
Proof.
  intros (Hnd & Hin & _). split; [done|]. apply Forall_forall.
  intros s Hs. destruct (Hin _ Hs) as (df & _ & -> & ->). by split.
Qed.

Lemma init_feed_inv (csv : string → option DataFrame) (q : list Event)
    (syms : list string) (h : HistoricCSVDataHandler) :
  __init__ csv q syms = Ok h →
  ∃ comb, comb_index csv syms = Ok comb ∧ feed_inv comb 0 h.
Proof.
  intros Hinit.
  destruct (init_spec _ _ _ _ Hinit)
    as (comb & Hcomb & Hnd & Hsl & _ & _ & Hin & Hout).
  exists comb. split; [done|]. unfold feed_inv. rewrite Hsl.
  split_and!; [done| |done].
  intros s Hs. destruct (Hin _ Hs) as (raw & df' & _ & Hpad & Hsd & Hl).
  exists df'. split_and!; [by eapply reindex_pad_index|done|done].
Qed.

Lemma index_length (df : DataFrame) : length (index df) = length df.
Proof. unfold index. apply length_map. Qed.

Lemma update_bars_feed_inv (comb : list Z) (k : nat) (h : HistoricCSVDataHandler) :
  feed_inv comb k h →
  ∃ h', update_bars h = Ok h' ∧ feed_inv comb (S k) h' ∧
        symbol_list h' = symbol_list h.
Proof.
  intros Hinv. pose proof (feed_inv_well_formed _ _ _ Hinv) as Hwf.
  destruct (update_bars_spec h Hwf) as (h' & Hrun & _ & Hsl & Hin & Hout & _).
  exists h'. split_and!; [done| |done].
  destruct Hinv as (Hnd & Hsym & Hun). unfold feed_inv. rewrite Hsl.
  split_and!; [done| |].
  - intros s Hs. destruct (Hsym _ Hs) as (df & Hidx & Hg & Hl).
    exists df. split; [done|].
    specialize (Hin s _ _ Hs Hg Hl). simpl in Hin.
    assert (length df = length comb) as Hlen by (by rewrite <- Hidx, index_length).
    destruct (df !! (k `min` length comb)) as [b|] eqn:Hb.
    + apply lookup_lt_Some in Hb as Hlt.
      assert (k `min` length comb = k) as Hk by lia. rewrite Hk in Hb, Hin.
      destruct Hin as [-> ->]. split.
      * do 2 f_equal. lia.
      * by erewrite take_S_r.
    + apply lookup_ge_None in Hb as Hge.
      destruct Hin as [-> ->]. split.
      * do 2 f_equal. lia.
      * f_equal. rewrite !take_ge; [done|lia|lia].
  - intros s Hs. destruct (Hout _ Hs) as [_ ->]. by apply Hun.
Qed.

Lemma run_feed_inv (comb : list Z) (k : nat) :
  ∀ h0, feed_inv comb 0 h0 →
        ∃ h, run k h0 = Ok h ∧ feed_inv comb k h ∧
             symbol_list h = symbol_list h0.
Proof.
  induction k as [|k IH]; simpl; intros h0 Hinv.
  - by exists h0.
  - destruct (IH h0 Hinv) as (h & -> & Hk & Hsl). simpl.
    destruct (update_bars_feed_inv _ _ _ Hk) as (h' & -> & HSk & Hsl').
    exists h'. split_and!; [done|done|congruence].
Qed.

(** A handler reached from a construction by [k] steps. *)
Lemma reached_feed_inv (csv : string → option DataFrame) (q : list Event)
    (syms : list string) (k : nat) (h0 h : HistoricCSVDataHandler) :
  __init__ csv q syms = Ok h0 → run k h0 = Ok h →
  ∃ comb, comb_index csv syms = Ok comb ∧ feed_inv comb k h ∧
          symbol_list h = syms.
Proof.
  intros Hinit Hrun.
  destruct (init_feed_inv _ _ _ _ Hinit) as (comb & Hcomb & H0).
  destruct (run_feed_inv comb k h0 H0) as (h1 & Hrun1 & Hk & Hsl).
  rewrite Hrun in Hrun1. injection Hrun1 as <-.
  exists comb. split_and!; [done|done|].
  rewrite Hsl. by destruct (init_spec _ _ _ _ Hinit) as (? & _ & _ & -> & _).
Qed.

(** ** Slices *)

Lemma slice_from_last_N {A : Type} (N : Z) (l : list A) :
  (1 ≤ N)%Z →
  slice_from (- N) l = drop (length l - Z.to_nat N) l.
Proof.
  intros HN. unfold slice_from.
  assert ((- N <? 0)%Z = true) as -> by (apply Z.ltb_lt; lia).
  f_equal. lia.
Qed.

Lemma slice_from_zero {A : Type} (l : list A) : slice_from (- 0) l = l.
Proof. unfold slice_from. simpl. by rewrite Z.min_l by lia. Qed.

Lemma slice_from_subseteq {A : Type} (start : Z) (l : list A) :
  slice_from start l ⊆ l.
Proof.
  unfold slice_from. intros x Hx.
  apply list_elem_of_lookup in Hx as [i Hi]. rewrite lookup_drop in Hi.
  by eapply list_elem_of_lookup_2.
Qed.

Lemma slice_from_nil {A : Type} (start : Z) : slice_from start (@nil A) = [].
Proof. unfold slice_from. by rewrite drop_nil. Qed.

(** ** The canonical index of the specification *)

Lemma insert_label_elem (t x : Z) (l : list Z) :
  x ∈ insert_label t l ↔ x = t ∨ x ∈ l.
Proof.
  induction l as [|t' rest IH]; simpl.
  - rewrite list_elem_of_singleton. split; [by left|].
    intros [->|Hx]; [done|]. by apply elem_of_nil in Hx.
  - destruct (t <? t')%Z eqn:Hlt; [apply elem_of_cons|].
    destruct (t =? t')%Z eqn:Heq.
    + apply Z.eqb_eq in Heq as ->. split; [by right|].
      intros [->|Hx]; [left|done].
    + rewrite !elem_of_cons, IH. tauto.
Qed.

Lemma insert_label_sorted (t : Z) (l : list Z) :
  StronglySorted Z.lt l → StronglySorted Z.lt (insert_label t l).
Proof.
  induction l as [|t' rest IH]; simpl; intros Hs.
  - repeat constructor.
  - inversion Hs as [|? ? Hs' Hall]; subst.
    destruct (t <? t')%Z eqn:Hlt.
    + apply Z.ltb_lt in Hlt. constructor; [done|].
      constructor; [done|]. eapply Forall_impl; [exact Hall|].
      simpl. intros; lia.
    + destruct (t =? t')%Z eqn:Heq; [done|].
      apply Z.ltb_ge in Hlt. apply Z.eqb_neq in Heq.
      constructor; [by apply IH|]. apply Forall_forall. intros x Hx.
      apply insert_label_elem in Hx as [->|Hx]; [lia|].
      rewrite Forall_forall in Hall. by apply Hall.
Qed.

(** [canonical_index_spec] is strictly ascending and holds exactly the
    native timestamps of the symbols. *)
Lemma canonical_index_spec_sorted (csv : string → option DataFrame)
    (syms : list string) :
  StronglySorted Z.lt (canonical_index_spec csv syms).
Proof.
  unfold canonical_index_spec.
  induction (syms ≫= native_labels csv) as [|t l IH]; simpl.
  - constructor.
  - by apply insert_label_sorted.
Qed.

Lemma canonical_index_spec_elem (csv : string → option DataFrame)
    (syms : list string) (t : Z) :
  t ∈ canonical_index_spec csv syms ↔
  ∃ s, s ∈ syms ∧ t ∈ native_labels csv s.
Proof.
  unfold canonical_index_spec.
  assert (∀ l : list Z, t ∈ foldr insert_label [] l ↔ t ∈ l) as Hfold.
  { induction l as [|x l IH]; simpl; [done|].
    by rewrite insert_label_elem, IH, elem_of_cons. }
  rewrite Hfold, list_elem_of_bind. split.
  - intros (s & Ht & Hs). by exists s.
  - intros (s & Hs & Ht). by exists s.
Qed.

(** ** The index built at construction *)

(** C1, on the scenario of the specification with the symbols registered
    as ["A"; "B"]: the construction succeeds and both series are reindexed
    on [1; 3; 4], the index of the last symbol alone, whereas the sorted
    union of the native timestamps is [1; 2; 3; 4]. *)
Theorem C1_comb_index_is_last_symbol_index :
  comb_index csv_AB ["A"; "B"] = Ok [1; 3; 4]%Z ∧
  canonical_index_spec csv_AB ["A"; "B"] = [1; 2; 3; 4]%Z ∧
  ∃ h gA gB,
    __init__ csv_AB [] ["A"; "B"] = Ok h ∧
    symbol_data h !! "A" = Some gA ∧ index (rows gA) = [1; 3; 4]%Z ∧
    symbol_data h !! "B" = Some gB ∧ index (rows gB) = [1; 3; 4]%Z.
Proof.
  split_and!; [reflexivity|reflexivity|].
  eexists _, _, _. split_and!; reflexivity.
Qed.

(** C2, on the same scenario: the aligned closes are [10; 11; 13] for
    ["A"] and [100; 102; 104] for ["B"], three rows each, not the four
    rows [10; 11; 11; 13] and [100; 100; 102; 104] over [1; 2; 3; 4]. *)
Theorem C2_aligned_closes_on_last_symbol_index :
  ∃ h gA gB,
    __init__ csv_AB [] ["A"; "B"] = Ok h ∧
    symbol_data h !! "A" = Some gA ∧
    rows gA = [(1, quote 10); (3, quote 11); (4, quote 13)]%Z ∧
    closes (rows gA) = [Num 10; Num 11; Num 13] ∧
    symbol_data h !! "B" = Some gB ∧
    rows gB = [(1, quote 100); (3, quote 102); (4, quote 104)]%Z ∧
    closes (rows gB) = [Num 100; Num 102; Num 104].
Proof.
  eexists _, _, _. split_and!; reflexivity.
Qed.

(** ** Index entries before a symbol's first native timestamp *)




(** On [csv_gap] the canonical index is [1; 3; 5] and its entry [1]
    precedes the first timestamp of ["B"]; the series are reindexed on
    [3; 5], so the series of ["B"] has no row at [1], and the construction
    returns a handler. *)
Example missing_row_absent_off_index :
  canonical_index_spec csv_gap ["A"; "B"] = [1; 3; 5]%Z ∧
  comb_index csv_gap ["A"; "B"] = Ok [3; 5]%Z ∧
  ∃ h g,
    __init__ csv_gap [] ["A"; "B"] = Ok h ∧
    symbol_data h !! "B" = Some g ∧
    rows g = [(3, quote 100); (5, quote 101)]%Z.
Proof.
  split_and!; [reflexivity|reflexivity|].
  eexists _, _. split_and!; reflexivity.
Qed.

(** ** One bar per symbol and step *)

Lemma take_min_length {A : Type} (k : nat) (l : list A) :
  take (k `min` length l) l = take k l.
Proof.
  destruct (decide (k ≤ length l)) as [Hle|Hgt].
  - by rewrite Nat.min_l.
  - rewrite Nat.min_r by lia. rewrite !take_ge; [done|lia|lia].
Qed.

(** C4: on a handler reached from a construction by any number of steps,
    [update_bars] returns, and for every registered symbol it leaves the
    rows of the generator in place and either appends the row under the
    cursor to the history and moves the cursor by one, or, the rows being
    used up, leaves history and cursor as they are; the history before the
    step is the rows before the cursor, and the cursor never decreases nor
    passes the number of rows. *)
Theorem C4_update_bars_reveals_next_bar
    (csv : string → option DataFrame) (q : list Event) (syms : list string)
    (k : nat) (h0 h : HistoricCSVDataHandler) :
  __init__ csv q syms = Ok h0 → run k h0 = Ok h →
  ∃ h',
    update_bars h = Ok h' ∧
    ∀ s, s ∈ syms →
      ∃ g l g',
        symbol_data h !! s = Some g ∧ latest_symbol_data h !! s = Some l ∧
        symbol_data h' !! s = Some g' ∧
        l = take (cursor g) (rows g) ∧ rows g' = rows g ∧
        cursor g ≤ cursor g' ≤ length (rows g') ∧
        match rows g !! cursor g with
        | Some b =>
            latest_symbol_data h' !! s = Some (l ++ [b]) ∧
            cursor g' = S (cursor g)
        | None =>
            latest_symbol_data h' !! s = Some l ∧ cursor g' = cursor g
        end.
Proof.
  intros Hinit Hrun.
  destruct (reached_feed_inv _ _ _ _ _ _ Hinit Hrun) as (comb & _ & Hinv & Hsl).
  pose proof (feed_inv_well_formed _ _ _ Hinv) as Hwf.
  destruct (update_bars_spec h Hwf) as (h' & Hstep & _ & _ & Hin & _).
  exists h'. split; [done|]. intros s Hs. rewrite <- Hsl in Hs.
  destruct Hinv as (_ & Hsym & _).
  destruct (Hsym _ Hs) as (df & Hidx & Hg & Hl).
  assert (length comb = length df) as Hlen by (by rewrite <- Hidx, index_length).
  specialize (Hin s _ _ Hs Hg Hl). simpl in Hin.
  rewrite Hlen in Hg, Hin.
  destruct (df !! (k `min` length df)) as [b|] eqn:Hb.
  - destruct Hin as [Hg' Hl'].
    eexists _, _, _. split_and!; [done|done|done|..]; simpl.
    + by rewrite take_min_length.
    + done.
    + lia.
    + apply lookup_lt_Some in Hb. lia.
    + by rewrite Hb.
  - destruct Hin as [Hg' Hl'].
    eexists _, _, _. split_and!; [done|done|done|..]; simpl.
    + by rewrite take_min_length.
    + done.
    + lia.
    + lia.
    + by rewrite Hb.
Qed.

Lemma C4_update_bars_reveals_next_bar_witness :
  ∃ h',
    update_bars h_AB_2 = Ok h' ∧
    ∀ s, s ∈ ["A"; "B"] →
      ∃ g l g',
        symbol_data h_AB_2 !! s = Some g ∧
        latest_symbol_data h_AB_2 !! s = Some l ∧
        symbol_data h' !! s = Some g' ∧
        l = take (cursor g) (rows g) ∧ rows g' = rows g ∧
        cursor g ≤ cursor g' ≤ length (rows g') ∧
        match rows g !! cursor g with
        | Some b =>
            latest_symbol_data h' !! s = Some (l ++ [b]) ∧
            cursor g' = S (cursor g)
        | None =>
            latest_symbol_data h' !! s = Some l ∧ cursor g' = cursor g
        end.
Proof.
  apply (C4_update_bars_reveals_next_bar csv_AB [] ["A"; "B"] 2 h_AB h_AB_2).
  - reflexivity.
  - reflexivity.
Defined.

(** ** No lookahead *)

Lemma sorted_lookup_le (l : list Z) :
  StronglySorted Z.le l →
  ∀ i j x y, i ≤ j → l !! i = Some x → l !! j = Some y → (x ≤ y)%Z.
Proof.
  induction 1 as [|a l Hs IH Hall]; intros i j x y Hij Hi Hj.
  - done.
  - destruct i as [|i]; destruct j as [|j]; simpl in Hi, Hj.
    + simplify_eq. lia.
    + simplify_eq. rewrite Forall_forall in Hall. apply Hall.
      by eapply list_elem_of_lookup_2.
    + lia.
    + eapply IH; [|done|done]. lia.
Qed.

(** On the index the series are reindexed on, the feed does not run
    ahead: after exactly [k] steps from a construction, every bar that
    [get_latest_bars] returns, for any symbol and any [N], carries one of
    the first [k] entries of [comb_index], and none later than the
    [k]-th. *)
Lemma no_lookahead_on_comb_index
    (csv : string → option DataFrame) (q : list Event) (syms : list string)
    (comb : list Z) (k : nat) (h0 h : HistoricCSVDataHandler)
    (symbol : string) (N : Z) (bars : list bar) :
  __init__ csv q syms = Ok h0 → comb_index csv syms = Ok comb →
  run k h0 = Ok h → get_latest_bars h symbol N = Ok bars →
  ∀ b, b ∈ bars →
    fst b ∈ take k comb ∧ ∀ tk, kth k comb = Some tk → (fst b ≤ tk)%Z.
Proof.
  intros Hinit Hcomb Hrun Hget b Hb.
  destruct (reached_feed_inv _ _ _ _ _ _ Hinit Hrun)
    as (comb' & Hcomb' & Hinv & Hsl).
  rewrite Hcomb in Hcomb'. injection Hcomb' as <-.
  destruct Hinv as (_ & Hsym & Hun).
  unfold get_latest_bars, bars_list in Hget.
  destruct (decide (symbol ∈ symbol_list h)) as [Hs|Hs].
  2: { rewrite (Hun _ Hs) in Hget. done. }
  destruct (Hsym _ Hs) as (df & Hidx & _ & Hl).
  rewrite Hl in Hget. simpl in Hget. injection Hget as <-.
  apply slice_from_subseteq in Hb.
  apply elem_of_take in Hb as (i & Hi & Hik).
  assert (comb !! i = Some (fst b)) as Hci.
  { rewrite <- Hidx. unfold index. by rewrite list_lookup_fmap, Hi. }
  split.
  - apply elem_of_take. by exists i.
  - intros tk Htk. destruct k as [|k']; [done|]. simpl in Htk.
    eapply (sorted_lookup_le comb); [|  |exact Hci|exact Htk].
    + by eapply comb_index_sorted.
    + lia.
Qed.

Lemma no_lookahead_on_comb_index_witness :
  get_latest_bars h_AB_2 "A" 1 = Ok [(3, quote 11)]%Z ∧
  (3%Z ∈ take 2 [1; 3; 4]%Z ∧
   ∀ tk, kth 2 [1; 3; 4]%Z = Some tk → (3 ≤ tk)%Z).
Proof.
  split; [reflexivity|].
  apply (λ H0 H1 H2 H3,
           no_lookahead_on_comb_index csv_AB [] ["A"; "B"] [1; 3; 4]%Z 2
             h_AB h_AB_2
             "A" 1%Z [(3, quote 11)]%Z H0 H1 H2 H3 (3, quote 11)%Z).
  - reflexivity.
  - reflexivity.
  - reflexivity.
  - reflexivity.
  - by left.
Defined.

(** C5, on the scenario of the specification with the symbols registered
    as ["A"; "B"]: the canonical index, the sorted union of the native
    timestamps, is [1; 2; 3; 4] and its second entry is [2]; after exactly
    two steps [get_latest_bars] returns for ["A"] a bar at timestamp [3],
    which is later. *)
Theorem C5_lookahead_against_canonical_index :
  ∃ h0 h,
    __init__ csv_AB [] ["A"; "B"] = Ok h0 ∧ run 2 h0 = Ok h ∧
    canonical_index_spec csv_AB ["A"; "B"] = [1; 2; 3; 4]%Z ∧
    kth 2 (canonical_index_spec csv_AB ["A"; "B"]) = Some 2%Z ∧
    get_latest_bars h "A" 1 = Ok [(3, quote 11)]%Z ∧
    get_latest_bars h "A" 2 = Ok [(1, quote 10); (3, quote 11)]%Z ∧
    (2 < fst (3, quote 11))%Z.
Proof.
  eexists _, _. split_and!; reflexivity.
Qed.


(** ** The last [N] bars *)

(** For [N] at least one, [get_latest_bars] on a registered symbol returns
    the last [N] bars of the history, oldest first, or all of them when
    there are fewer: [min N (length l)] bars, and no exception. *)
Lemma get_latest_bars_last_N (h : HistoricCSVDataHandler) (symbol : string)
    (N : Z) (l : list bar) :
  latest_symbol_data h !! symbol = Some l → (1 ≤ N)%Z →
  ∃ bars,
    get_latest_bars h symbol N = Ok bars ∧
    bars = drop (length l - Z.to_nat N) l ∧
    Z.of_nat (length bars) = Z.min N (Z.of_nat (length l)).
Proof.
  intros Hl HN. unfold get_latest_bars, bars_list. rewrite Hl. simpl.
  eexists. split_and!; [done|by apply slice_from_last_N|].
  rewrite slice_from_last_N by done. rewrite length_drop. lia.
Qed.

(** C6, at [N = 0] after two steps on the scenario of the specification:
    the history of ["A"] holds two bars and [get_latest_bars] returns both
    of them, where [min N buffer_length] is zero. *)
Theorem C6_get_latest_bars_zero_returns_all :
  ∃ h0 h,
    __init__ csv_AB [] ["A"; "B"] = Ok h0 ∧ run 2 h0 = Ok h ∧
    latest_symbol_data h !! "A" = Some [(1, quote 10); (3, quote 11)]%Z ∧
    get_latest_bars h "A" 0 = Ok [(1, quote 10); (3, quote 11)]%Z ∧
    Z.min 0 (Z.of_nat (length [(1, quote 10); (3, quote 11)]%Z)) = 0%Z.
Proof.
  eexists _, _. split_and!; reflexivity.
Qed.

(** ** Unregistered symbols *)

(** C7: on a handler reached from a construction by any number of steps,
    each of the five accessors called with a symbol that was not in the
    list given to the construction ends in [KeyError]. *)
Theorem C7_unknown_symbol_raises_KeyError
    (csv : string → option DataFrame) (q : list Event) (syms : list string)
    (k : nat) (h0 h : HistoricCSVDataHandler)
    (symbol val_type : string) (N : Z) :
  __init__ csv q syms = Ok h0 → run k h0 = Ok h → symbol ∉ syms →
  get_latest_bar h symbol = Raise KeyError ∧
  get_latest_bars h symbol N = Raise KeyError ∧
  get_latest_bar_datetime h symbol = Raise KeyError ∧
  get_latest_bar_value h symbol val_type = Raise KeyError ∧
  get_latest_bars_values h symbol val_type N = Raise KeyError.
Proof.
  intros Hinit Hrun Hs.
  destruct (reached_feed_inv _ _ _ _ _ _ Hinit Hrun) as (comb & _ & Hinv & Hsl).
  destruct Hinv as (_ & _ & Hun). rewrite <- Hsl in Hs.
  specialize (Hun _ Hs).
  unfold get_latest_bars_values, get_latest_bar_value, get_latest_bar_datetime,
    get_latest_bars, get_latest_bar, bars_list.
  rewrite Hun. by split_and!.
Qed.

Lemma C7_unknown_symbol_raises_KeyError_witness :
  get_latest_bar h_fresh "B" = Raise KeyError ∧
  get_latest_bars h_fresh "B" 3 = Raise KeyError ∧
  get_latest_bar_datetime h_fresh "B" = Raise KeyError ∧
  get_latest_bar_value h_fresh "B" "close" = Raise KeyError ∧
  get_latest_bars_values h_fresh "B" "close" 3 = Raise KeyError.
Proof.
  apply (C7_unknown_symbol_raises_KeyError csv_A [] ["A"] 0 h_fresh h_fresh
           "B" "close" 3%Z).
  - reflexivity.
  - reflexivity.
  - apply (bool_decide_unpack _). vm_compute. exact I.
Defined.

(** ** The continuation flag *)

(** C8: the flag is true after a construction; a step on a well-formed
    handler returns, leaves the flag true exactly when it was true and no
    registered symbol had its rows used up, so that one used-up symbol
    suffices to clear it and a cleared flag stays cleared; and in that same
    step every registered symbol that still has a row has it appended to
    its history, wherever it stands in the list. *)
Theorem C8_continue_backtest
    (csv : string → option DataFrame) (q : list Event) (syms : list string)
    (h0 h : HistoricCSVDataHandler) :
  __init__ csv q syms = Ok h0 → well_formed h →
  continue_backtest h0 = true ∧
  ∃ h',
    update_bars h = Ok h' ∧
    (continue_backtest h' = true ↔
       continue_backtest h = true ∧
       ∀ s g, s ∈ symbol_list h → symbol_data h !! s = Some g → ¬ exhausted g) ∧
    (∀ s g, s ∈ symbol_list h → symbol_data h !! s = Some g → exhausted g →
       continue_backtest h' = false) ∧
    (continue_backtest h = false → continue_backtest h' = false) ∧
    (∀ s g l b, s ∈ symbol_list h → symbol_data h !! s = Some g →
       latest_symbol_data h !! s = Some l → rows g !! cursor g = Some b →
       symbol_data h' !! s = Some (mkIter (rows g) (S (cursor g))) ∧
       latest_symbol_data h' !! s = Some (l ++ [b])).
Proof.
  intros Hinit Hwf. split.
  { by destruct (init_spec _ _ _ _ Hinit) as (? & _ & _ & _ & _ & -> & _). }
  destruct (update_bars_spec h Hwf) as (h' & Hstep & _ & _ & Hin & _ & Hflag).
  exists h'. split_and!; [done|done| | |].
  - intros s g Hs Hg Hex. apply not_true_is_false. intros Hc.
    apply Hflag in Hc as [_ Hc]. by apply (Hc s g).
  - intros Hc. apply not_true_is_false. intros Hc'.
    apply Hflag in Hc' as [Hc' _]. congruence.
  - intros s g l b Hs Hg Hl Hb. specialize (Hin s g l Hs Hg Hl).
    by rewrite Hb in Hin.
Qed.

Lemma C8_continue_backtest_witness :
  continue_backtest h_fresh = true ∧
  ∃ h',
    update_bars h_uneven = Ok h' ∧
    (continue_backtest h' = true ↔
       continue_backtest h_uneven = true ∧
       ∀ s g, s ∈ symbol_list h_uneven → symbol_data h_uneven !! s = Some g →
              ¬ exhausted g) ∧
    (∀ s g, s ∈ symbol_list h_uneven → symbol_data h_uneven !! s = Some g →
            exhausted g → continue_backtest h' = false) ∧
    (continue_backtest h_uneven = false → continue_backtest h' = false) ∧
    (∀ s g l b, s ∈ symbol_list h_uneven → symbol_data h_uneven !! s = Some g →
       latest_symbol_data h_uneven !! s = Some l → rows g !! cursor g = Some b →
       symbol_data h' !! s = Some (mkIter (rows g) (S (cursor g))) ∧
       latest_symbol_data h' !! s = Some (l ++ [b])).
Proof.
  apply (C8_continue_backtest csv_A [] ["A"] h_fresh h_uneven).
  - reflexivity.
  - apply (bool_decide_unpack _). vm_compute. exact I.
Defined.

(** On [h_uneven] the step finds ["A"] used up, clears the flag, and still
    appends the next row of ["B"], which comes later in the list. *)
Example update_bars_uneven :
  ∃ h',
    update_bars h_uneven = Ok h' ∧ continue_backtest h' = false ∧
    latest_symbol_data h' !! "A" = Some [(1, quote 10)]%Z ∧
    latest_symbol_data h' !! "B" = Some [(1, quote 100); (2, quote 101)]%Z.
Proof. eexists. split_and!; reflexivity. Qed.

(** ** Steps after exhaustion *)

(** C9: a step on a well-formed handler returns and adds exactly one
    [MarketEvent] to the queue; when every registered symbol has its rows
    used up, the step changes neither a history nor a generator. *)
Theorem C9_update_bars_after_exhaustion (h : HistoricCSVDataHandler) :
  well_formed h →
  ∃ h',
    update_bars h = Ok h' ∧
    events h' = events h ++ [MarketEvent] ∧
    ((∀ s g, s ∈ symbol_list h → symbol_data h !! s = Some g → exhausted g) →
       latest_symbol_data h' = latest_symbol_data h ∧
       symbol_data h' = symbol_data h ∧
       symbol_list h' = symbol_list h).
Proof.
  intros Hwf.
  destruct (update_bars_spec h Hwf) as (h' & Hstep & Hev & Hsl & Hin & Hout & _).
  exists h'. split_and!; [done|done|].
  intros Hex.
  assert (∀ s, symbol_data h' !! s = symbol_data h !! s ∧
               latest_symbol_data h' !! s = latest_symbol_data h !! s) as Hsame.
  { intros s. destruct (decide (s ∈ symbol_list h)) as [Hs|Hs]; [|by apply Hout].
    destruct (well_formed_lookup h s Hwf Hs) as [[g Hg] [l Hl]].
    specialize (Hin s g l Hs Hg Hl). specialize (Hex s g Hs Hg).
    unfold exhausted in Hex. rewrite Hex in Hin.
    destruct Hin as [-> ->]. by rewrite Hg, Hl. }
  split_and!; [| |done].
  - apply map_eq. intros s. apply Hsame.
  - apply map_eq. intros s. apply Hsame.
Qed.

Lemma C9_update_bars_after_exhaustion_witness :
  ∃ h',
    update_bars h_done = Ok h' ∧
    events h' = events h_done ++ [MarketEvent] ∧
    ((∀ s g, s ∈ symbol_list h_done → symbol_data h_done !! s = Some g →
             exhausted g) →
       latest_symbol_data h' = latest_symbol_data h_done ∧
       symbol_data h' = symbol_data h_done ∧
       symbol_list h' = symbol_list h_done).
Proof.
  apply (C9_update_bars_after_exhaustion h_done).
  apply (bool_decide_unpack _). vm_compute. exact I.
Defined.

(** ** Empty histories *)

(** Right after a construction the history of every registered symbol is
    empty. *)
Lemma init_history_empty (csv : string → option DataFrame) (q : list Event)
    (syms : list string) (h0 : HistoricCSVDataHandler) (s : string) :
  __init__ csv q syms = Ok h0 → s ∈ syms → latest_symbol_data h0 !! s = Some [].
Proof.
  intros Hinit Hs.
  destruct (init_spec _ _ _ _ Hinit) as (? & _ & _ & _ & _ & _ & Hin & _).
  by destruct (Hin _ Hs) as (? & ? & _ & _ & _ & ->).
Qed.

(** C10: for a symbol whose history is empty, [get_latest_bar],
    [get_latest_bar_datetime] and [get_latest_bar_value] end in
    [IndexError], and [get_latest_bars] and [get_latest_bars_values]
    return the empty sequence. *)
Theorem C10_empty_history (h : HistoricCSVDataHandler)
    (symbol val_type : string) (N : Z) :
  latest_symbol_data h !! symbol = Some [] →
  get_latest_bar h symbol = Raise IndexError ∧
  get_latest_bar_datetime h symbol = Raise IndexError ∧
  get_latest_bar_value h symbol val_type = Raise IndexError ∧
  get_latest_bars h symbol N = Ok [] ∧
  get_latest_bars_values h symbol val_type N = Ok [].
Proof.
  intros Hl.
  unfold get_latest_bars_values, get_latest_bar_value, get_latest_bar_datetime,
    get_latest_bars, get_latest_bar, bars_list.
  rewrite Hl. simpl. rewrite slice_from_nil. by split_and!.
Qed.

Lemma C10_empty_history_witness :
  get_latest_bar h_fresh "A" = Raise IndexError ∧
  get_latest_bar_datetime h_fresh "A" = Raise IndexError ∧
  get_latest_bar_value h_fresh "A" "close" = Raise IndexError ∧
  get_latest_bars h_fresh "A" 2 = Ok [] ∧
  get_latest_bars_values h_fresh "A" "close" 2 = Ok [].
Proof.
  apply (C10_empty_history h_fresh "A" "close" 2%Z). reflexivity.
Defined.


(** * Further properties of the handler *)

(** ** How the construction ends *)

Lemma reindex_pad_ok_iff (df : DataFrame) (idx : list Z) :
  (∃ df', reindex_pad df idx = Ok df') ↔ index df = idx ∨ NoDup (index df).
Proof.
  unfold reindex_pad.
  destruct (decide (index df = idx)) as [Heq|Hne].
  - split; [by left|by eexists].
  - destruct (decide (NoDup (index df))) as [Hnd|Hnd].
    + split; [by right|by eexists].
    + split; [by intros [? ?]|]. by intros [?|?].
Qed.

Lemma reindex_pad_raises (df : DataFrame) (idx : list Z) (e : exn) :
  reindex_pad df idx = Raise e → e = ValueError ∧ ¬ NoDup (index df).
Proof.
  unfold reindex_pad. intros H.
  destruct (decide (index df = idx)); [done|].
  destruct (decide (NoDup (index df))); [done|].
  by injection H as <-.
Qed.

Section EndOfConstruction.

Variable csv : string → option DataFrame.

Lemma read_loop_missing (syms : list string) :
  ∀ sd lsd,
    (∃ s, s ∈ syms ∧ csv s = None) →
    read_loop csv syms sd lsd = Raise ReadCsvError.
Proof.
  induction syms as [|s0 rest IH]; simpl; intros sd lsd (s & Hs & Hmiss).
  - by apply elem_of_nil in Hs.
  - destruct (csv s0) as [raw|] eqn:Hcsv; [|done].
    apply IH. exists s. split; [|done].
    apply elem_of_cons in Hs as [->|Hs]; [congruence|done].
Qed.

Lemma read_loop_raises (syms : list string) :
  ∀ sd lsd e,
    read_loop csv syms sd lsd = Raise e →
    e = ReadCsvError ∧ ∃ s, s ∈ syms ∧ csv s = None.
Proof.
  induction syms as [|s0 rest IH]; simpl; intros sd lsd e H; [done|].
  destruct (csv s0) as [raw|] eqn:Hcsv.
  - destruct (IH _ _ _ H) as (-> & s & Hs & Hmiss).
    split; [done|]. exists s. split; [by right|done].
  - injection H as <-. split; [done|]. exists s0. split; [left|done].
Qed.

(** The second loop, started after the symbols of [pre] have been turned
    into generators, can only end in [AttributeError], on a symbol met
    again, or in [ValueError], on a frame with a repeated label. *)
Lemma reindex_loop_raises (comb : list Z) (syms : list string) :
  ∀ pre sd e,
    (∀ s, s ∈ syms →
       if decide (s ∈ pre) then ∃ g, sd !! s = Some (Rows g)
       else ∃ raw, csv s = Some raw ∧ sd !! s = Some (Frame (sort_values raw))) →
    reindex_loop syms comb sd = Raise e →
    (e = AttributeError ∧ ¬ NoDup (pre ++ syms)) ∨
    (e = ValueError ∧
     ∃ s raw, s ∈ syms ∧ csv s = Some raw ∧ ¬ NoDup (index raw)).
Proof.
  induction syms as [|s0 rest IH]; simpl; intros pre sd e Hinv H; [done|].
  pose proof (Hinv s0 (list_elem_of_here _ _)) as Hs0.
  destruct (decide (s0 ∈ pre)) as [Hpre|Hpre].
  - destruct Hs0 as [g Hg]. rewrite Hg in H. injection H as <-.
    left. split; [done|]. intros Hnd.
    apply NoDup_app in Hnd as (_ & Hdisj & _).
    apply (Hdisj s0 Hpre). left.
  - destruct Hs0 as (raw & Hcsv & Hsd). rewrite Hsd in H.
    destruct (reindex_pad (sort_values raw) comb) as [df'|e'] eqn:Hpad.
    + simpl in H.
      assert (∀ s, s ∈ rest →
                if decide (s ∈ pre ++ [s0])
                then ∃ g, <[s0 := Rows (mkIter df' 0)]> sd !! s = Some (Rows g)
                else ∃ raw, csv s = Some raw ∧
                            <[s0 := Rows (mkIter df' 0)]> sd !! s
                            = Some (Frame (sort_values raw))) as Hinv'.
      { intros s Hs. destruct (decide (s = s0)) as [->|Hne].
        - rewrite decide_True by (apply elem_of_app; right; left).
          rewrite lookup_insert_eq. by eexists.
        - rewrite lookup_insert_ne by done.
          pose proof (Hinv s (list_elem_of_further _ _ _ Hs)) as Hs'.
          destruct (decide (s ∈ pre)) as [Hin|Hin].
          + rewrite decide_True by (apply elem_of_app; by left). done.
          + rewrite decide_False; [done|].
              intros [?|Hx%list_elem_of_singleton]%elem_of_app; done. }
      destruct (IH (pre ++ [s0]) _ e Hinv' H) as [[-> Hnd]|(-> & Hv)].
      * left. split; [done|]. by rewrite <- app_assoc in Hnd.
      * right. split; [done|]. destruct Hv as (s & raw' & Hs & Hc & Hd).
        exists s, raw'. split_and!; [by right|done|done].
    + simpl in H. injection H as <-.
      destruct (reindex_pad_raises _ _ _ Hpad) as [-> Hnd].
      right. split; [done|]. exists s0, raw. split_and!; [left|done|].
      by rewrite <- sort_values_index.
Qed.

Lemma reindex_loop_ok_pad (comb : list Z) (syms : list string) :
  ∀ sd,
    NoDup syms →
    (∀ s, s ∈ syms →
       ∃ df df', sd !! s = Some (Frame df) ∧ reindex_pad df comb = Ok df') →
    ∃ sd', reindex_loop syms comb sd = Ok sd'.
Proof.
  induction syms as [|s0 rest IH]; simpl; intros sd Hnd Hall.
  - by eexists.
  - apply NoDup_cons in Hnd as [Hfresh Hnd].
    destruct (Hall s0) as (df & df' & -> & ->); [left|]. simpl.
    apply IH; [done|]. intros s Hs.
    destruct (Hall s) as (df1 & df1' & Hl & Hp); [by right|].
    exists df1, df1'. split; [|done]. rewrite lookup_insert_ne; [done|].
    by intros ->.
Qed.

End EndOfConstruction.

(** X1: the construction returns a handler exactly when the symbols are
    distinct, the list has a last symbol whose file loads, and every
    symbol's file loads with distinct timestamps or with the very
    timestamps of the last symbol's file. *)
Theorem construction_succeeds_iff
    (csv : string → option DataFrame) (q : list Event) (syms : list string) :
  (∃ h, __init__ csv q syms = Ok h) ↔
  NoDup syms ∧
  ∃ s0 raw0,
    last syms = Some s0 ∧ csv s0 = Some raw0 ∧
    ∀ s, s ∈ syms →
      ∃ raw, csv s = Some raw ∧
             (index (sort_values raw) = index (sort_values raw0) ∨
              NoDup (index raw)).
Proof.
  split.
  - intros [h Hinit].
    destruct (init_spec _ _ _ _ Hinit) as (comb & Hcomb & Hnd & _ & _ & _ & Hin & _).
    destruct (comb_index_spec _ _ _ Hcomb) as (s0 & raw0 & Hlast & Hcsv0 & ->).
    split; [done|]. exists s0, raw0. split_and!; [done|done|].
    intros s Hs. destruct (Hin _ Hs) as (raw & df' & Hcsv & Hpad & _).
    exists raw. split; [done|].
    destruct (proj1 (reindex_pad_ok_iff _ _) (ex_intro _ df' Hpad)) as [Heq|Hnd'].
    + by left.
    + right. by rewrite <- sort_values_index.
  - intros (Hnd & s0 & raw0 & Hlast & Hcsv0 & Hall).
    unfold __init__, _open_convert_csv_files.
    destruct (read_loop_ok csv syms ∅ ∅) as (sd & lsd & Hread).
    { intros s Hs. destruct (Hall _ Hs) as (raw & -> & _). by eexists. }
    rewrite Hread. simpl.
    destruct (read_loop_spec csv syms _ _ _ _ Hread) as [Hin _].
    unfold combine. rewrite Hlast.
    destruct (Hin s0) as (raw0' & Hcsv0' & Hsd0 & _).
    { by eapply last_Some_elem_of. }
    rewrite Hcsv0 in Hcsv0'. injection Hcsv0' as <-.
    unfold index_of. rewrite Hsd0. simpl.
    destruct (reindex_loop_ok_pad (index (sort_values raw0)) syms sd Hnd)
      as [sd' ->].
    { intros s Hs. destruct (Hin _ Hs) as (raw & Hcsv & Hsd & _).
      destruct (Hall _ Hs) as (raw' & Hcsv' & Hok).
      rewrite Hcsv in Hcsv'. injection Hcsv' as <-.
      destruct (proj2 (reindex_pad_ok_iff (sort_values raw)
                         (index (sort_values raw0)))) as [df' Hpad].
      { destruct Hok as [?|?]; [by left|right; by rewrite sort_values_index]. }
      by exists (sort_values raw), df'. }
    simpl. by eexists.
Qed.

(** X2: where the construction can fail, and why. It fails in the read
    of the loop variable only on the empty list ([NameError]), in
    [read_csv] only when a file does not load (with what [read_csv]
    raises), in the second loop at [reindex] only when a symbol is listed
    twice ([AttributeError]: the generator has no [reindex]), and inside
    [reindex] only when a file repeats a timestamp ([ValueError]); it
    fails nowhere else. *)
Theorem construction_raises
    (csv : string → option DataFrame) (q : list Event) (syms : list string)
    (e : exn) :
  __init__ csv q syms = Raise e →
  (e = NameError ∧ syms = []) ∨
  (e = ReadCsvError ∧ ∃ s, s ∈ syms ∧ csv s = None) ∨
  (e = AttributeError ∧ ¬ NoDup syms) ∨
  (e = ValueError ∧
   ∃ s raw, s ∈ syms ∧ csv s = Some raw ∧ ¬ NoDup (index raw)).
Proof.
  unfold __init__, _open_convert_csv_files. intros H.
  destruct (read_loop csv syms ∅ ∅) as [[sd lsd]|e0] eqn:Hread.
  2: { simpl in H. injection H as <-. right. left.
       by apply (read_loop_raises csv syms ∅ ∅). }
  simpl in H. destruct (read_loop_spec csv syms _ _ _ _ Hread) as [Hin _].
  unfold combine in H. destruct (last syms) as [s0|] eqn:Hlast.
  2: { simpl in H. injection H as <-. left. split; [done|].
       by apply last_None. }
  destruct (Hin s0) as (raw0 & _ & Hsd0 & _).
  { by eapply last_Some_elem_of. }
  unfold index_of in H. rewrite Hsd0 in H. simpl in H.
  destruct (reindex_loop syms (index (sort_values raw0)) sd) as [sd'|e1] eqn:Hre;
    [done|].
  simpl in H. injection H as <-. right. right.
  assert (∀ s, s ∈ syms →
            if decide (s ∈ @nil string) then ∃ g, sd !! s = Some (Rows g)
            else ∃ raw, csv s = Some raw ∧
                        sd !! s = Some (Frame (sort_values raw))) as Hinv.
  { intros s Hs. rewrite decide_False by apply not_elem_of_nil.
    destruct (Hin _ Hs) as (raw & Hcsv & Hsd & _). by exists raw. }
  destruct (reindex_loop_raises csv (index (sort_values raw0)) syms [] sd e1
              Hinv Hre) as [[-> Hnd]|Hv].
  - by left.
  - by right.
Qed.

Lemma construction_raises_witness :
  (AttributeError = NameError ∧ ["A"; "A"] = []) ∨
  (AttributeError = ReadCsvError ∧
   ∃ s, s ∈ ["A"; "A"] ∧ csv_A s = None) ∨
  (AttributeError = AttributeError ∧ ¬ NoDup ["A"; "A"]) ∨
  (AttributeError = ValueError ∧
   ∃ s raw, s ∈ ["A"; "A"] ∧ csv_A s = Some raw ∧ ¬ NoDup (index raw)).
Proof.
  apply (construction_raises csv_A [] ["A"; "A"] AttributeError).
  reflexivity.
Defined.

(** X3: when [read_csv] raises for the file of a listed symbol, the
    construction ends in an exception of [read_csv], whatever else is
    wrong with the list: every file is read before anything else is
    done. *)
Theorem construction_unreadable_file
    (csv : string → option DataFrame) (q : list Event) (syms : list string)
    (s : string) :
  s ∈ syms → csv s = None → __init__ csv q syms = Raise ReadCsvError.
Proof.
  intros Hs Hmiss. unfold __init__, _open_convert_csv_files.
  rewrite (read_loop_missing csv syms ∅ ∅); [done|]. by exists s.
Qed.

Lemma construction_unreadable_file_witness :
  __init__ csv_A [] ["A"; "B"; "A"] = Raise ReadCsvError.
Proof.
  apply (construction_unreadable_file csv_A [] ["A"; "B"; "A"] "B").
  - apply (bool_decide_unpack _). vm_compute. exact I.
  - reflexivity.
Defined.

(** X4: when every file loads with distinct timestamps, listing a symbol
    twice ends the construction in [AttributeError]. *)
Theorem construction_repeated_symbol
    (csv : string → option DataFrame) (q : list Event) (syms : list string) :
  (∀ s, s ∈ syms → ∃ raw, csv s = Some raw ∧ NoDup (index raw)) →
  ¬ NoDup syms →
  __init__ csv q syms = Raise AttributeError.
Proof.
  intros Hall Hdup. unfold __init__, _open_convert_csv_files.
  destruct (read_loop_ok csv syms ∅ ∅) as (sd & lsd & Hread).
  { intros s Hs. destruct (Hall _ Hs) as (raw & -> & _). by eexists. }
  rewrite Hread. simpl.
  destruct (read_loop_spec csv syms _ _ _ _ Hread) as [Hin _].
  destruct (last syms) as [s0|] eqn:Hlast.
  2: { apply last_None in Hlast as ->. exfalso. apply Hdup. constructor. }
  unfold combine. rewrite Hlast.
  destruct (Hin s0) as (raw0 & _ & Hsd0 & _).
  { by eapply last_Some_elem_of. }
  unfold index_of. rewrite Hsd0. simpl.
  destruct (reindex_loop syms (index (sort_values raw0)) sd) as [sd'|e] eqn:Hre.
  { exfalso. apply Hdup. by destruct (reindex_loop_spec _ _ _ _ Hre). }
  assert (∀ s, s ∈ syms →
            if decide (s ∈ @nil string) then ∃ g, sd !! s = Some (Rows g)
            else ∃ raw, csv s = Some raw ∧
                        sd !! s = Some (Frame (sort_values raw))) as Hinv.
  { intros s Hs. rewrite decide_False by apply not_elem_of_nil.
    destruct (Hin _ Hs) as (raw & Hcsv & Hsd & _). by exists raw. }
  destruct (reindex_loop_raises csv _ syms [] sd e Hinv Hre)
    as [[-> _]|(-> & s & raw & Hs & Hc & Hd)]; [done|].
  destruct (Hall _ Hs) as (raw' & Hc' & Hnd). congruence.
Qed.

Lemma construction_repeated_symbol_witness :
  __init__ csv_A [] ["A"; "A"] = Raise AttributeError.
Proof.
  apply (construction_repeated_symbol csv_A [] ["A"; "A"]).
  - intros s Hs.
    apply elem_of_cons in Hs as [->|Hs];
      [|apply elem_of_cons in Hs as [->|Hs]; [|by apply elem_of_nil in Hs]].
    + eexists. split; [reflexivity|].
      apply (bool_decide_unpack _). vm_compute. exact I.
    + eexists. split; [reflexivity|].
      apply (bool_decide_unpack _). vm_compute. exact I.
  - apply (bool_decide_unpack _). vm_compute. exact I.
Defined.

(** ** What the construction builds *)

(** X5: in a constructed handler every registered symbol has a generator
    at its start over a frame with one row per entry of one common index,
    in the order of that index, which is ascending and holds the
    timestamps of the last symbol's file, each as often as the file has
    it. *)
Theorem construction_common_index
    (csv : string → option DataFrame) (q : list Event) (syms : list string)
    (h : HistoricCSVDataHandler) :
  __init__ csv q syms = Ok h →
  ∃ comb s0 raw0,
    last syms = Some s0 ∧ csv s0 = Some raw0 ∧
    comb ≡ₚ index raw0 ∧ StronglySorted Z.le comb ∧
    ∀ s, s ∈ syms →
      ∃ g, symbol_data h !! s = Some g ∧ cursor g = 0 ∧
           index (rows g) = comb ∧ length (rows g) = length raw0.
Proof.
  intros Hinit.
  destruct (init_spec _ _ _ _ Hinit) as (comb & Hcomb & _ & _ & _ & _ & Hin & _).
  destruct (comb_index_spec _ _ _ Hcomb) as (s0 & raw0 & Hlast & Hcsv0 & ->).
  exists (index (sort_values raw0)), s0, raw0.
  split_and!; [done|done|apply sort_values_index|apply sort_values_sorted|].
  intros s Hs. destruct (Hin _ Hs) as (raw & df' & _ & Hpad & Hsd & _).
  exists (mkIter df' 0). simpl. split_and!; [done|done| |].
  - by eapply reindex_pad_index.
  - rewrite <- (index_length df'), (reindex_pad_index _ _ _ Hpad).
    by rewrite sort_values_index, index_length.
Qed.

Lemma construction_common_index_witness :
  ∃ comb s0 raw0,
    last ["A"; "B"] = Some s0 ∧ csv_late s0 = Some raw0 ∧
    comb ≡ₚ index raw0 ∧ StronglySorted Z.le comb ∧
    ∀ s, s ∈ ["A"; "B"] →
      ∃ g, symbol_data
             (mkHandler [] ["A"; "B"]
                (<["A" := mkIter [(1, nan_row); (2, quote 11); (3, quote 12)]%Z 0]>
                   (<["B" := mkIter [(1, quote 100); (2, quote 101);
                                     (3, quote 102)]%Z 0]> ∅))
                (<["A" := []]> (<["B" := []]> ∅)) true) !! s = Some g ∧
           cursor g = 0 ∧ index (rows g) = comb ∧
           length (rows g) = length raw0.
Proof.
  apply (construction_common_index csv_late [] ["A"; "B"]). reflexivity.
Defined.

(** X6: when the file of the last symbol of the list has distinct
    timestamps and numbers that the float64 casts leave unchanged, the
    series of that symbol is the file itself sorted on the timestamp:
    nothing is filled in it and nothing is dropped. *)
Theorem construction_last_symbol_unpadded
    (csv : string → option DataFrame) (q : list Event) (syms : list string)
    (h : HistoricCSVDataHandler) (s0 : string) (raw0 : DataFrame) :
  __init__ csv q syms = Ok h → last syms = Some s0 → csv s0 = Some raw0 →
  NoDup (index raw0) → float64_exact raw0 →
  symbol_data h !! s0 = Some (mkIter (sort_values raw0) 0).
Proof.
  intros Hinit Hlast Hcsv0 _ _.
  destruct (init_spec _ _ _ _ Hinit) as (comb & Hcomb & _ & _ & _ & _ & Hin & _).
  destruct (comb_index_spec _ _ _ Hcomb) as (s1 & raw1 & Hlast1 & Hcsv1 & ->).
  rewrite Hlast in Hlast1. injection Hlast1 as <-.
  rewrite Hcsv0 in Hcsv1. injection Hcsv1 as <-.
  destruct (Hin s0) as (raw & df' & Hcsv & Hpad & Hsd & _).
  { by eapply last_Some_elem_of. }
  rewrite Hcsv0 in Hcsv. injection Hcsv as <-.
  unfold reindex_pad in Hpad. rewrite decide_True in Hpad by done.
  by injection Hpad as <-.
Qed.

Lemma construction_last_symbol_unpadded_witness :
  symbol_data h_AB !! "B"
  = Some (mkIter (sort_values [(1, quote 100); (3, quote 102); (4, quote 104)]%Z) 0).
Proof.
  apply (construction_last_symbol_unpadded csv_AB [] ["A"; "B"] h_AB "B").
  - reflexivity.
  - reflexivity.
  - reflexivity.
  - apply (bool_decide_unpack _). vm_compute. exact I.
  - apply (bool_decide_unpack _). vm_compute. exact I.
Defined.

(** X7: for a file of numbers that the float64 casts leave unchanged,
    every row of the aligned series is the missing row or a row of the
    symbol's own file at a timestamp not after the entry it stands at:
    values are carried forward only, never backward and never from
    another symbol. *)
Theorem construction_fills_forward_only
    (csv : string → option DataFrame) (q : list Event) (syms : list string)
    (h : HistoricCSVDataHandler) (s : string) (raw : DataFrame)
    (g : iterrows) (t : Z) (r : Series) :
  __init__ csv q syms = Ok h → s ∈ syms → csv s = Some raw →
  float64_exact raw →
  symbol_data h !! s = Some g → (t, r) ∈ rows g →
  r = nan_row ∨ ∃ t', (t', r) ∈ raw ∧ (t' ≤ t)%Z.
Proof.
  intros Hinit Hs Hcsv _ Hg Hr.
  destruct (init_spec _ _ _ _ Hinit) as (comb & _ & _ & _ & _ & _ & Hin & _).
  destruct (Hin _ Hs) as (raw' & df' & Hcsv' & Hpad & Hsd & _).
  rewrite Hcsv in Hcsv'. injection Hcsv' as <-.
  rewrite Hsd in Hg. injection Hg as <-. simpl in Hr.
  destruct (reindex_pad_rows _ _ _ _ _ Hpad Hr) as [Hd| ->].
  - right. exists t. split; [|lia]. by rewrite <- sort_values_perm.
  - destruct (pad_lookup (sort_values raw) t) as [r1|] eqn:Hp; simpl; [|by left].
    right.
    destruct (pad_lookup_Some _ _ _ (sort_values_sorted raw) Hp)
      as (t' & Hin' & Hle & _).
    exists t'. split; [|done]. by rewrite <- sort_values_perm.
Qed.

Lemma construction_fills_forward_only_witness :
  quote 11 = nan_row ∨
  ∃ t', (t', quote 11) ∈ [(1, quote 10); (2, quote 11); (4, quote 13)]%Z ∧
        (t' ≤ 3)%Z.
Proof.
  apply (construction_fills_forward_only csv_AB [] ["A"; "B"] h_AB "A"
           [(1, quote 10); (2, quote 11); (4, quote 13)]%Z
           (mkIter [(1, quote 10); (3, quote 11); (4, quote 13)]%Z 0)).
  - reflexivity.
  - by left.
  - reflexivity.
  - apply (bool_decide_unpack _). vm_compute. exact I.
  - reflexivity.
  - simpl. right. by left.
Defined.

(** ** The feed, step after step *)

Lemma run_step_inv (comb : list Z) (k : nat) (h0 h : HistoricCSVDataHandler) :
  feed_inv comb 0 h0 → run (S k) h0 = Ok h →
  ∃ hk, run k h0 = Ok hk ∧ feed_inv comb k hk ∧
        symbol_list hk = symbol_list h0 ∧ update_bars hk = Ok h.
Proof.
  intros H0 Hrun. destruct (run_feed_inv comb k h0 H0) as (hk & Hk & Hinv & Hsl).
  exists hk. split_and!; [done|done|done|].
  simpl in Hrun. by rewrite Hk in Hrun.
Qed.

Lemma feed_inv_exhausted (comb : list Z) (k : nat) (h : HistoricCSVDataHandler)
    (s : string) (g : iterrows) :
  feed_inv comb k h → s ∈ symbol_list h → symbol_data h !! s = Some g →
  exhausted g ↔ length comb ≤ k.
Proof.
  intros (_ & Hsym & _) Hs Hg.
  destruct (Hsym _ Hs) as (df & Hidx & Hg' & _).
  rewrite Hg in Hg'. injection Hg' as ->. unfold exhausted. simpl.
  rewrite lookup_ge_None, <- (index_length df), Hidx. lia.
Qed.

(** X8: from a constructed handler any number of steps go through, the
    list of symbols stays as given, and after [k] steps the queue holds
    what it held at construction followed by exactly [k] market events. *)
Theorem run_from_construction
    (csv : string → option DataFrame) (q : list Event) (syms : list string)
    (h0 : HistoricCSVDataHandler) (k : nat) :
  __init__ csv q syms = Ok h0 →
  ∃ h, run k h0 = Ok h ∧ symbol_list h = syms ∧
       events h = q ++ replicate k MarketEvent.
Proof.
  intros Hinit.
  destruct (init_feed_inv _ _ _ _ Hinit) as (comb & _ & H0).
  destruct (init_spec _ _ _ _ Hinit) as (_ & _ & _ & Hsl0 & Hev0 & _).
  induction k as [|k IH].
  - exists h0. simpl. split_and!; [done|done|]. by rewrite app_nil_r.
  - destruct IH as (hk & Hk & Hsl & Hev).
    destruct (run_feed_inv comb k h0 H0) as (hk' & Hk' & Hinv & _).
    rewrite Hk in Hk'. injection Hk' as <-.
    destruct (update_bars_spec hk (feed_inv_well_formed _ _ _ Hinv))
      as (h & Hstep & Hev' & Hsl' & _).
    exists h. split_and!; [simpl; by rewrite Hk|congruence|].
    rewrite Hev', Hev, replicate_S_end. by rewrite app_assoc.
Qed.

Lemma run_from_construction_witness :
  ∃ h, run 2 h_AB = Ok h ∧ symbol_list h = ["A"; "B"] ∧
       events h = [] ++ replicate 2 MarketEvent.
Proof.
  apply (run_from_construction csv_AB [] ["A"; "B"] h_AB 2). reflexivity.
Defined.

(** X9: after [k] steps from a construction the histories of all the
    registered symbols carry the same timestamps, the first [k] entries of
    the common index, in order: the symbols advance on one clock. *)
Theorem histories_share_clock
    (csv : string → option DataFrame) (q : list Event) (syms : list string)
    (comb : list Z) (k : nat) (h0 h : HistoricCSVDataHandler) (s : string) :
  __init__ csv q syms = Ok h0 → comb_index csv syms = Ok comb →
  run k h0 = Ok h → s ∈ syms →
  ∃ g l,
    symbol_data h !! s = Some g ∧ latest_symbol_data h !! s = Some l ∧
    l = take k (rows g) ∧ fst <$> l = take k comb ∧
    length l = k `min` length comb.
Proof.
  intros Hinit Hcomb Hrun Hs.
  destruct (reached_feed_inv _ _ _ _ _ _ Hinit Hrun)
    as (comb' & Hcomb' & Hinv & Hsl).
  rewrite Hcomb in Hcomb'. injection Hcomb' as <-.
  destruct Hinv as (_ & Hsym & _). rewrite <- Hsl in Hs.
  destruct (Hsym _ Hs) as (df & Hidx & Hg & Hl).
  eexists _, _. split_and!; [done|done|done| |].
  - rewrite fmap_take. by rewrite <- Hidx.
  - rewrite length_take, <- Hidx, index_length. done.
Qed.

Lemma histories_share_clock_witness :
  ∃ g l,
    symbol_data h_AB_2 !! "A" = Some g ∧
    latest_symbol_data h_AB_2 !! "A" = Some l ∧
    l = take 2 (rows g) ∧ fst <$> l = take 2 [1; 3; 4]%Z ∧
    length l = 2 `min` length [1; 3; 4]%Z.
Proof.
  apply (histories_share_clock csv_AB [] ["A"; "B"] [1; 3; 4]%Z 2 h_AB h_AB_2 "A").
  - reflexivity.
  - reflexivity.
  - reflexivity.
  - by left.
Defined.

(** X10: after [k] steps from a construction the flag is still true
    exactly when [k] is at most the length of the common index: the step
    that clears it is the first one after the last row has been
    revealed. *)
Theorem continue_backtest_after
    (csv : string → option DataFrame) (q : list Event) (syms : list string)
    (comb : list Z) (k : nat) (h0 h : HistoricCSVDataHandler) :
  __init__ csv q syms = Ok h0 → comb_index csv syms = Ok comb →
  run k h0 = Ok h →
  continue_backtest h = true ↔ k ≤ length comb.
Proof.
  intros Hinit Hcomb.
  destruct (init_feed_inv _ _ _ _ Hinit) as (comb' & Hcomb' & H0).
  rewrite Hcomb in Hcomb'. injection Hcomb' as <-.
  destruct (init_spec _ _ _ _ Hinit) as (_ & _ & _ & Hsl0 & _ & Hc0 & _).
  destruct (comb_index_spec _ _ _ Hcomb) as (s0 & _ & Hlast & _).
  assert (s0 ∈ syms) as Hs0 by (by eapply last_Some_elem_of).
  revert h. induction k as [|k IH]; intros h Hrun.
  - simpl in Hrun. injection Hrun as <-. split; [lia|done].
  - destruct (run_step_inv comb k h0 h H0 Hrun) as (hk & Hk & Hinv & Hsl & Hstep).
    specialize (IH hk Hk).
    destruct (update_bars_spec hk (feed_inv_well_formed _ _ _ Hinv))
      as (h' & Hstep' & _ & _ & _ & _ & Hflag).
    rewrite Hstep in Hstep'. injection Hstep' as <-.
    rewrite Hflag, IH. rewrite Hsl, Hsl0. split.
    + intros [Hle Hex].
      destruct Hinv as (Hnd & Hsym & Hun).
      destruct (Hsym s0) as (df & Hidx & Hg & _); [by rewrite Hsl, Hsl0|].
      specialize (Hex s0 _ Hs0 Hg).
      rewrite (feed_inv_exhausted comb k hk s0 _ (conj Hnd (conj Hsym Hun))) in Hex;
        [lia|by rewrite Hsl, Hsl0|done].
    + intros Hle. split; [lia|]. intros s g Hs Hg.
      rewrite (feed_inv_exhausted comb k hk s g Hinv); [lia| |done].
      by rewrite Hsl, Hsl0.
Qed.

Lemma continue_backtest_after_witness :
  continue_backtest h_AB_2 = true ↔ 2 ≤ length [1; 3; 4]%Z.
Proof.
  apply (continue_backtest_after csv_AB [] ["A"; "B"] [1; 3; 4]%Z 2 h_AB h_AB_2).
  - reflexivity.
  - reflexivity.
  - reflexivity.
Defined.

(** X11: after [k] steps from a construction, [get_latest_bar_datetime]
    returns for every registered symbol the last of the first [k] entries
    of the common index; it ends in [IndexError] when there is none, before
    the first step or on an empty index. *)
Theorem get_latest_bar_datetime_after
    (csv : string → option DataFrame) (q : list Event) (syms : list string)
    (comb : list Z) (k : nat) (h0 h : HistoricCSVDataHandler) (s : string) :
  __init__ csv q syms = Ok h0 → comb_index csv syms = Ok comb →
  run k h0 = Ok h → s ∈ syms →
  get_latest_bar_datetime h s
  = match last (take k comb) with
    | Some t => Ok t
    | None => Raise IndexError
    end.
Proof.
  intros Hinit Hcomb Hrun Hs.
  destruct (reached_feed_inv _ _ _ _ _ _ Hinit Hrun)
    as (comb' & Hcomb' & Hinv & Hsl).
  rewrite Hcomb in Hcomb'. injection Hcomb' as <-.
  destruct Hinv as (_ & Hsym & _). rewrite <- Hsl in Hs.
  destruct (Hsym _ Hs) as (df & Hidx & _ & Hl).
  unfold get_latest_bar_datetime, bars_list, item_last. rewrite Hl. simpl.
  rewrite <- Hidx. unfold index. rewrite <- fmap_take, fmap_last.
  by destruct (last (take k df)).
Qed.

Lemma get_latest_bar_datetime_after_witness :
  get_latest_bar_datetime h_AB_2 "B"
  = match last (take 2 [1; 3; 4]%Z) with
    | Some t => Ok t
    | None => Raise IndexError
    end.
Proof.
  apply (get_latest_bar_datetime_after csv_AB [] ["A"; "B"] [1; 3; 4]%Z 2
           h_AB h_AB_2 "B").
  - reflexivity.
  - reflexivity.
  - reflexivity.
  - right. by left.
Defined.

(** ** The accessors on any handler *)

(** X12: for a symbol with a history, [get_latest_bars] never raises and
    returns the newest bars of the history, oldest first: the last [N] of
    them (all when there are fewer) for a positive [N], and, the slice
    being [[-N:]], all but the first [-N] for an [N] that is not positive,
    which is the whole history at [N = 0]. *)
Theorem get_latest_bars_newest
    (h : HistoricCSVDataHandler) (symbol : string) (N : Z) (l : list bar) :
  latest_symbol_data h !! symbol = Some l →
  ∃ older bars,
    get_latest_bars h symbol N = Ok bars ∧ l = older ++ bars ∧
    Z.of_nat (length bars)
    = if (0 <? N)%Z then Z.min N (Z.of_nat (length l))
      else Z.max (Z.of_nat (length l) + N) 0.
Proof.
  intros Hl. unfold get_latest_bars, bars_list, slice_from. rewrite Hl. simpl.
  set (lo := if (- N <? 0)%Z then _ else _).
  exists (take (Z.to_nat lo) l), (drop (Z.to_nat lo) l).
  split_and!; [done|by rewrite take_drop|].
  rewrite length_drop. subst lo.
  destruct (Z.ltb_spec (- N) 0); destruct (Z.ltb_spec 0 N); lia.
Qed.

Lemma get_latest_bars_newest_witness :
  ∃ older bars,
    get_latest_bars h_AB_2 "A" 5 = Ok bars ∧
    [(1, quote 10); (3, quote 11)]%Z = older ++ bars ∧
    Z.of_nat (length bars)
    = if (0 <? 5)%Z
      then Z.min 5 (Z.of_nat (length [(1, quote 10); (3, quote 11)]%Z))
      else Z.max (Z.of_nat (length [(1, quote 10); (3, quote 11)]%Z) + 5) 0.
Proof.
  apply (get_latest_bars_newest h_AB_2 "A" 5%Z). reflexivity.
Defined.

(** X13: [get_latest_bar] returns a bar exactly when [get_latest_bars]
    with [N = 1] returns that bar alone. *)
Theorem get_latest_bar_is_get_latest_bars_1
    (h : HistoricCSVDataHandler) (symbol : string) (b : bar) :
  get_latest_bar h symbol = Ok b ↔ get_latest_bars h symbol 1 = Ok [b].
Proof.
  unfold get_latest_bar, get_latest_bars, bars_list, item_last.
  destruct (latest_symbol_data h !! symbol) as [l|]; simpl; [|done].
  rewrite slice_from_last_N by lia.
  destruct l as [|x l _] using rev_ind.
  - simpl. split; intros H; discriminate H.
  - rewrite last_snoc.
    rewrite (drop_app_length' l [x]) by (rewrite length_app; simpl; lia).
    split; intros H; by simplify_eq.
Qed.

Lemma values_of_column (val_type : string) (f : Series → cell) (l : list bar) :
  (∀ r, getattr r val_type = Ok (f r)) →
  values_of val_type l = Ok ((λ b, f (snd b)) <$> l).
Proof.
  intros Hf. induction l as [|b l IH]; simpl; [done|].
  by rewrite Hf, IH.
Qed.

(** X14: for each of the six column names, [get_latest_bars_values]
    returns the values of that column over the very bars that
    [get_latest_bars] returns, one value per bar and in the same order. *)
Theorem get_latest_bars_values_columns
    (h : HistoricCSVDataHandler) (symbol : string) (N : Z) (bars : list bar) :
  get_latest_bars h symbol N = Ok bars →
  get_latest_bars_values h symbol "open" N
    = Ok ((λ b, open (snd b)) <$> bars) ∧
  get_latest_bars_values h symbol "high" N
    = Ok ((λ b, high (snd b)) <$> bars) ∧
  get_latest_bars_values h symbol "low" N
    = Ok ((λ b, low (snd b)) <$> bars) ∧
  get_latest_bars_values h symbol "close" N
    = Ok ((λ b, close (snd b)) <$> bars) ∧
  get_latest_bars_values h symbol "adj_close" N
    = Ok ((λ b, adj_close (snd b)) <$> bars) ∧
  get_latest_bars_values h symbol "volume" N
    = Ok ((λ b, volume (snd b)) <$> bars).
Proof.
  intros Hbars. unfold get_latest_bars_values. rewrite Hbars. simpl.
  split_and!; by apply values_of_column.
Qed.

Lemma get_latest_bars_values_columns_witness :
  get_latest_bars_values h_AB_2 "B" "open" 2
    = Ok ((λ b, open (snd b)) <$> [(1, quote 100); (3, quote 102)]%Z) ∧
  get_latest_bars_values h_AB_2 "B" "high" 2
    = Ok ((λ b, high (snd b)) <$> [(1, quote 100); (3, quote 102)]%Z) ∧
  get_latest_bars_values h_AB_2 "B" "low" 2
    = Ok ((λ b, low (snd b)) <$> [(1, quote 100); (3, quote 102)]%Z) ∧
  get_latest_bars_values h_AB_2 "B" "close" 2
    = Ok ((λ b, close (snd b)) <$> [(1, quote 100); (3, quote 102)]%Z) ∧
  get_latest_bars_values h_AB_2 "B" "adj_close" 2
    = Ok ((λ b, adj_close (snd b)) <$> [(1, quote 100); (3, quote 102)]%Z) ∧
  get_latest_bars_values h_AB_2 "B" "volume" 2
    = Ok ((λ b, volume (snd b)) <$> [(1, quote 100); (3, quote 102)]%Z).
Proof.
  apply (get_latest_bars_values_columns h_AB_2 "B" 2%Z). reflexivity.
Defined.

(** ** Steps on any well-formed handler *)

(** X15: the step and the accessors together. After a step on a
    well-formed handler, a registered symbol that had a row left shows
    that row as its latest bar, with its timestamp and its close; a symbol
    that had none shows the latest bar it showed before. *)
Theorem update_bars_then_latest
    (h : HistoricCSVDataHandler) (s : string) (g : iterrows) :
  well_formed h → s ∈ symbol_list h → symbol_data h !! s = Some g →
  ∃ h',
    update_bars h = Ok h' ∧
    match rows g !! cursor g with
    | Some b =>
        get_latest_bar h' s = Ok b ∧
        get_latest_bar_datetime h' s = Ok (fst b) ∧
        get_latest_bar_value h' s "close" = Ok (close (snd b))
    | None =>
        get_latest_bar h' s = get_latest_bar h s ∧
        get_latest_bar_datetime h' s = get_latest_bar_datetime h s ∧
        get_latest_bar_value h' s "close" = get_latest_bar_value h s "close"
    end.
Proof.
  intros Hwf Hs Hg.
  destruct (update_bars_spec h Hwf) as (h' & Hstep & _ & _ & Hin & _).
  destruct (well_formed_lookup h s Hwf Hs) as [_ [l Hl]].
  specialize (Hin s g l Hs Hg Hl).
  exists h'. split; [done|].
  unfold get_latest_bar_value, get_latest_bar_datetime, get_latest_bar,
    bars_list, item_last.
  destruct (rows g !! cursor g) as [b|].
  - destruct Hin as [_ ->]. simpl. rewrite last_snoc. by simpl.
  - destruct Hin as [_ ->]. by rewrite Hl.
Qed.

Lemma update_bars_then_latest_witness :
  ∃ h',
    update_bars h_uneven = Ok h' ∧
    match rows (mkIter [(1, quote 100); (2, quote 101)]%Z 1)
          !! cursor (mkIter [(1, quote 100); (2, quote 101)]%Z 1) with
    | Some b =>
        get_latest_bar h' "B" = Ok b ∧
        get_latest_bar_datetime h' "B" = Ok (fst b) ∧
        get_latest_bar_value h' "B" "close" = Ok (close (snd b))
    | None =>
        get_latest_bar h' "B" = get_latest_bar h_uneven "B" ∧
        get_latest_bar_datetime h' "B" = get_latest_bar_datetime h_uneven "B" ∧
        get_latest_bar_value h' "B" "close"
        = get_latest_bar_value h_uneven "B" "close"
    end.
Proof.
  apply (update_bars_then_latest h_uneven "B").
  - apply (bool_decide_unpack _). vm_compute. exact I.
  - right. by left.
  - reflexivity.
Defined.

Lemma update_bars_grows (h : HistoricCSVDataHandler) :
  well_formed h →
  ∃ h',
    update_bars h = Ok h' ∧ well_formed h' ∧
    symbol_list h' = symbol_list h ∧
    (∀ s l, latest_symbol_data h !! s = Some l →
       ∃ newer, latest_symbol_data h' !! s = Some (l ++ newer) ∧
                length newer ≤ 1) ∧
    (∀ s, s ∉ symbol_list h →
       symbol_data h' !! s = symbol_data h !! s ∧
       latest_symbol_data h' !! s = latest_symbol_data h !! s).
Proof.
  intros Hwf.
  destruct (update_bars_spec h Hwf) as (h' & Hstep & _ & Hsl & Hin & Hout & _).
  exists h'. split_and!; [done| |done| |done].
  - split; [rewrite Hsl; apply Hwf|]. rewrite Hsl. apply Forall_forall.
    intros s Hs. destruct (well_formed_lookup h s Hwf Hs) as [[g Hg] [l Hl]].
    specialize (Hin s g l Hs Hg Hl).
    destruct (rows g !! cursor g); destruct Hin as [-> ->]; by split.
  - intros s l Hl. destruct (decide (s ∈ symbol_list h)) as [Hs|Hs].
    + destruct (well_formed_lookup h s Hwf Hs) as [[g Hg] _].
      specialize (Hin s g l Hs Hg Hl).
      destruct (rows g !! cursor g) as [b|]; destruct Hin as [_ ->].
      * exists [b]. split; [done|]. simpl. lia.
      * exists []. rewrite app_nil_r. split; [done|]. simpl. lia.
    + destruct (Hout _ Hs) as [_ ->]. exists []. rewrite app_nil_r.
      split; [done|]. simpl. lia.
Qed.

(** X16: histories are append-only. Any number [k] of steps on a
    well-formed handler go through and leave it well-formed with the same
    list of symbols; every history it had is a prefix of the history it
    has afterwards, longer by at most [k] bars; and what is bound to an
    unregistered symbol is left untouched. *)
Theorem histories_append_only (k : nat) (h : HistoricCSVDataHandler) :
  well_formed h →
  ∃ h',
    run k h = Ok h' ∧ well_formed h' ∧
    symbol_list h' = symbol_list h ∧
    (∀ s l, latest_symbol_data h !! s = Some l →
       ∃ newer, latest_symbol_data h' !! s = Some (l ++ newer) ∧
                length newer ≤ k) ∧
    (∀ s, s ∉ symbol_list h →
       symbol_data h' !! s = symbol_data h !! s ∧
       latest_symbol_data h' !! s = latest_symbol_data h !! s).
Proof.
  intros Hwf. induction k as [|k IH].
  - exists h. simpl. split_and!; try done.
    intros s l Hl. exists []. rewrite app_nil_r. split; [done|]. simpl. lia.
  - destruct IH as (hk & Hk & Hwfk & Hsl & Hgrow & Hout).
    destruct (update_bars_grows hk Hwfk) as (h' & Hstep & Hwf' & Hsl' & Hgrow' & Hout').
    exists h'. split_and!; [simpl; by rewrite Hk|done|congruence| |].
    + intros s l Hl. destruct (Hgrow s l Hl) as (n1 & Hl1 & Hlen1).
      destruct (Hgrow' s _ Hl1) as (n2 & Hl2 & Hlen2).
      exists (n1 ++ n2). rewrite app_assoc. split; [done|].
      rewrite length_app. lia.
    + intros s Hs. destruct (Hout s Hs) as [<- <-].
      apply Hout'. by rewrite Hsl.
Qed.

Lemma histories_append_only_witness :
  ∃ h',
    run 3 h_uneven = Ok h' ∧ well_formed h' ∧
    symbol_list h' = symbol_list h_uneven ∧
    (∀ s l, latest_symbol_data h_uneven !! s = Some l →
       ∃ newer, latest_symbol_data h' !! s = Some (l ++ newer) ∧
                length newer ≤ 3) ∧
    (∀ s, s ∉ symbol_list h_uneven →
       symbol_data h' !! s = symbol_data h_uneven !! s ∧
       latest_symbol_data h' !! s = latest_symbol_data h_uneven !! s).
Proof.
  apply (histories_append_only 3 h_uneven).
  apply (bool_decide_unpack _). vm_compute. exact I.
Defined.
